(** * House price prediction: cleaning pipeline, trainer filters and predictor

    A shallow embedding of [utils.py] (field cleaners and
    [clean_data_n_return_estimator]) and of the [/predict] handler of
    [server.py], together with the properties the specification states
    about them.

    Conventions of the embedding.
    - A Python [str] is a list of Unicode code points.  The character
      tables of the Python runtime appear as far as the code reaches
      them: the whitespace class of [str.strip], the case tables of the
      characters that can match the keyword pattern, and the
      decimal-digit class as a parameter.
    - A pandas numeric cell is an exact rational, or NaN ([None]).
      [pd.to_numeric] is written with the 64-bit range of its integers
      and with the float parser of pandas as a parameter; the arithmetic
      on the converted columns (comparisons, [np.percentile], the median)
      is exact, without float rounding.
    - Python exceptions are values of [exn] carried by the [result] monad.
    - The behaviour of pandas, numpy, [re] and scikit-learn calls is
      written out as the functions they compute.
    - [numpy.exp] and [numpy.log] are the real exponential and logarithm. *)

From Stdlib Require Import Ascii String.
From Stdlib Require Import List Bool Arith ZArith NArith QArith Qround Lia.
From Stdlib Require Import Permutation Sorted.
From Stdlib Require Import DecimalString.
From Stdlib Require DecimalNat DecimalFacts.
From Stdlib Require Lqa.
From Stdlib Require Import Reals Lra.
Import ListNotations.

Set Implicit Arguments.

(* ================================================================== *)
(** * Python strings *)
(* ================================================================== *)

(** A character is a Unicode code point. *)
Definition char := N.
Definition str := list char.

(** Code points of an ASCII literal. *)
Definition py (s : String.string) : str :=
  List.map N_of_ascii (String.list_ascii_of_string s).
Arguments py s%_string.

Definition char_eqb (a b : char) : bool := N.eqb a b.

Fixpoint str_eqb (a b : str) : bool :=
  match a, b with
  | [], [] => true
  | x :: a', y :: b' => char_eqb x y && str_eqb a' b'
  | _, _ => false
  end.

Definition str_eq_dec : forall a b : str, {a = b} + {a <> b} :=
  list_eq_dec N.eq_dec.

(** Python orders strings lexicographically by code point. *)
Fixpoint str_compare (a b : str) : comparison :=
  match a, b with
  | [], [] => Eq
  | [], _ :: _ => Lt
  | _ :: _, [] => Gt
  | x :: a', y :: b' =>
      match N.compare x y with
      | Eq => str_compare a' b'
      | c => c
      end
  end.

(** [str.isspace] on one code point: the characters [str.strip()] removes. *)
Definition is_space (c : char) : bool :=
  ((9 <=? c) && (c <=? 13) || (28 <=? c) && (c <=? 32)
   || (c =? 133) || (c =? 160) || (c =? 5760)
   || (8192 <=? c) && (c <=? 8202)
   || (c =? 8232) || (c =? 8233) || (c =? 8239) || (c =? 8287)
   || (c =? 12288))%N.

Fixpoint lstrip (s : str) : str :=
  match s with
  | c :: s' => if is_space c then lstrip s' else s
  | [] => []
  end.

Definition rstrip (s : str) : str := rev (lstrip (rev s)).

(** [s.strip()] *)
Definition strip (s : str) : str := rstrip (lstrip s).

(** [s.split(sep)] for a one-character separator: one more segment than
    there are separators, never an empty list. *)
Fixpoint split (sep : char) (s : str) : list str :=
  match s with
  | [] => [[]]
  | c :: s' =>
      if char_eqb c sep then [] :: split sep s'
      else match split sep s' with
           | seg :: segs => (c :: seg) :: segs
           | [] => [[c]]
           end
  end.

(** [sep.join(parts)] *)
Fixpoint join (sep : str) (parts : list str) : str :=
  match parts with
  | [] => []
  | [p] => p
  | p :: ps => p ++ sep ++ join sep ps
  end.

(** Index normalisation of a Python slice bound on a sequence of length
    [n]: a negative bound counts from the end, and every bound is clamped
    to [0..n]. *)
Definition slice_bound (n i : Z) : Z :=
  if (i <? 0)%Z then Z.max 0 (i + n) else Z.min i n.

(** [l[start:stop]] *)
Definition py_slice (A : Type) (l : list A) (start stop : Z) : list A :=
  let n := Z.of_nat (length l) in
  let lo := slice_bound n start in
  let hi := slice_bound n stop in
  firstn (Z.to_nat (hi - lo)) (skipn (Z.to_nat lo) l).

Definition comma : char := 44%N.

(* ================================================================== *)
(** * Field cleaners ([utils.py]) *)
(* ================================================================== *)

(** [get_address]: the comma-separated segment before the last one. *)
Definition get_address (addr : str) : str :=
  let result := py_slice (split comma addr) (-2) (-1) in
  let result := List.map strip result in
  join (py ", ") result.

(** [clean_text]: [re.sub(r"\D+", "", text)] deletes every maximal run of
    non-digits, that is, keeps the decimal digits.  [is_decimal] is the
    Unicode decimal-digit class (category Nd) of the Python runtime, whose
    table is not part of the repository and is taken as a parameter. *)
Definition clean_text (is_decimal : char -> bool) (text : str) : str :=
  filter is_decimal text.

(** The digits [0-9], a subset of every runtime's decimal-digit class. *)
Definition is_ascii_digit (c : char) : bool := ((48 <=? c) && (c <=? 57))%N.

(** ** Case-insensitive matching of [re] with the flag [re.I]

    The pattern of [extract_details] is an alternation of literals over
    lower-case ASCII letters, the space and the hyphen.  The case tables
    below are those of the code points that can match such a literal:
    the ASCII letters and the four letters [U+0130], [U+0131], [U+017F]
    and [U+212A]; every other code point is caseless for this pattern. *)

Definition is_ascii_upper (c : char) : bool := ((65 <=? c) && (c <=? 90))%N.
Definition is_ascii_lower (c : char) : bool := ((97 <=? c) && (c <=? 122))%N.

Definition I_dot : char := 304%N.        (* U+0130, capital I with dot above *)
Definition i_dotless : char := 305%N.    (* U+0131, small dotless i *)
Definition long_s : char := 383%N.       (* U+017F, small long s *)
Definition kelvin : char := 8490%N.      (* U+212A, Kelvin sign *)
Definition combining_dot : char := 775%N. (* U+0307, combining dot above *)

(** Simple lower-case mapping, as [re] applies it to each text character. *)
Definition sre_lower (c : char) : char :=
  if is_ascii_upper c then (c + 32)%N
  else if char_eqb c I_dot then 105%N
  else if char_eqb c kelvin then 107%N
  else c.

(** Lower-case letters that [re] treats as equivalent to a lower-case
    letter because they share its upper case. *)
Definition sre_fixes (lo : char) : list char :=
  if char_eqb lo 105%N then [i_dotless]
  else if char_eqb lo 115%N then [long_s]
  else [].

Definition is_cased (c : char) : bool :=
  is_ascii_upper c || is_ascii_lower c || char_eqb c I_dot
  || char_eqb c i_dotless || char_eqb c long_s || char_eqb c kelvin.

(** One literal of the pattern against one character of the text. *)
Definition ci_match (p c : char) : bool :=
  if is_cased p then
    let lo := sre_lower p in
    let ch := sre_lower c in
    char_eqb ch lo || existsb (char_eqb ch) (sre_fixes lo)
  else char_eqb c p.

(** A literal alternative at the start of the text: the matched text. *)
Fixpoint match_literal (pat text : str) : option str :=
  match pat with
  | [] => Some []
  | p :: pat' =>
      match text with
      | c :: text' =>
          if ci_match p c
          then option_map (cons c) (match_literal pat' text')
          else None
      | [] => None
      end
  end.

(** The alternation: the first alternative that matches wins. *)
Fixpoint match_alt (alts : list str) (text : str) : option str :=
  match alts with
  | [] => None
  | a :: alts' =>
      match match_literal a text with
      | Some m => Some m
      | None => match_alt alts' text
      end
  end.

(** [re.findall]: scan left to right; [skip] counts the characters of the
    current match still to be passed over, so matches do not overlap. *)
Fixpoint findall_from (alts : list str) (skip : nat) (text : str) : list str :=
  match text with
  | [] => []
  | _ :: rest =>
      match skip with
      | S k => findall_from alts k rest
      | O =>
          match match_alt alts text with
          | Some m => m :: findall_from alts (length m - 1) rest
          | None => findall_from alts 0 rest
          end
      end
  end.

Definition findall (alts : list str) (text : str) : list str :=
  findall_from alts 0 text.

(** Full case mappings used by [str.title]. *)
Definition to_lower_full (c : char) : str :=
  if is_ascii_upper c then [(c + 32)%N]
  else if char_eqb c I_dot then [105%N; combining_dot]
  else if char_eqb c kelvin then [107%N]
  else [c].

Definition to_title_full (c : char) : str :=
  if is_ascii_lower c then [(c - 32)%N]
  else if char_eqb c i_dotless then [73%N]
  else if char_eqb c long_s then [83%N]
  else [c].

(** [str.title]: title-case a character that follows an uncased one (or
    starts the string), lower-case every other. *)
Definition title_char (previous_is_cased : bool) (c : char) : str :=
  if previous_is_cased then to_lower_full c else to_title_full c.

Fixpoint str_title_from (previous_is_cased : bool) (s : str) : str :=
  match s with
  | [] => []
  | c :: s' => title_char previous_is_cased c ++ str_title_from (is_cased c) s'
  end.

Definition str_title (s : str) : str := str_title_from false s.

(** The pattern of [extract_details], alternatives in source order. *)
Definition details_pattern : list str :=
  [py "house"; py "terraced"; py "semi-detached"; py "detached";
   py "block of flats"; py "duplex"; py "bungalow"; py "mansion"].

(** [extract_details] *)
Definition extract_details (text : str) : str :=
  let result := findall details_pattern text in
  let result := join (py " ") result in
  str_title result.

(* ================================================================== *)
(** * Exceptions *)
(* ================================================================== *)

(** What a [ValueError] reports. *)
Inductive value_error :=
| unable_to_parse_string
| integer_out_of_range
| length_mismatch
| previously_unseen_labels (label : str).

Inductive exn :=
| AttributeError
| TypeError
| IndexError
| ValueError (why : value_error).

Inductive result (A : Type) : Type :=
| Ok (a : A)
| Raise (e : exn).
Arguments Ok {A} a.
Arguments Raise {A} e.

Definition bind (A B : Type) (m : result A) (k : A -> result B) : result B :=
  match m with
  | Ok a => k a
  | Raise e => Raise e
  end.

Notation "x <- m ;; k" := (bind m (fun x => k))
  (at level 61, m at next level, right associativity).

(** Apply a fallible function to every element, first failure wins. *)
Fixpoint mapM (A B : Type) (f : A -> result B) (l : list A) : result (list B) :=
  match l with
  | [] => Ok []
  | a :: l' => b <- f a ;; bs <- mapM f l' ;; Ok (b :: bs)
  end.

(* ================================================================== *)
(** * The data frame *)
(* ================================================================== *)

(** A cell as read from the CSV files: text, a number (a column whose
    every entry is numeric is read as numbers), or missing. *)
Inductive cell :=
| Str (s : str)
| Num (q : Q)
| NA.

(** A record with the seven columns of the scraped table, each column
    carrying its own cell type as the pipeline retypes it. *)
Record row7 (A B C D E F G : Type) : Type := mkRow {
  title : A;
  address : B;
  bed : C;
  bath : D;
  toilet : E;
  pkn_space : F;
  price : G
}.

(** A numeric cell after [pd.to_numeric]: a number or NaN. *)
Definition num := option Q.

Definition raw_row := row7 cell cell cell cell cell cell cell.
Definition text_row := row7 str str str str str str str.
Definition row := row7 str str num num num num num.

Definition isna (c : cell) : bool :=
  match c with NA => true | _ => false end.

(** [df.dropna()]: keep the rows without a missing cell. *)
Definition dropna (df : list raw_row) : list raw_row :=
  filter (fun r => negb (isna (title r) || isna (address r) || isna (bed r)
                         || isna (bath r) || isna (toilet r)
                         || isna (pkn_space r) || isna (price r))) df.

(** The cleaners on a cell.  A cell that is not text has no [split]
    method and is rejected by [re]. *)
Definition get_address_cell (c : cell) : result str :=
  match c with
  | Str s => Ok (get_address s)
  | _ => Raise AttributeError
  end.

Definition extract_details_cell (c : cell) : result str :=
  match c with
  | Str s => Ok (extract_details s)
  | _ => Raise TypeError
  end.

Definition clean_text_cell (is_decimal : char -> bool) (c : cell) : result str :=
  match c with
  | Str s => Ok (clean_text is_decimal s)
  | _ => Raise TypeError
  end.

(** [df[col] = df[col].apply(f)], one definition per column: [on_col f]
    rewrites the cell of one row, [apply_col f] the whole column, top to
    bottom, stopping at the first exception. *)
Section ColumnUpdate.
Variables A B C D E F G X : Type.
Let R := row7 A B C D E F G.

Definition on_title (f : A -> result X) (r : R) :=
  x <- f (title r) ;;
  Ok (mkRow x (address r) (bed r) (bath r) (toilet r) (pkn_space r) (price r)).
Definition on_address (f : B -> result X) (r : R) :=
  x <- f (address r) ;;
  Ok (mkRow (title r) x (bed r) (bath r) (toilet r) (pkn_space r) (price r)).
Definition on_bed (f : C -> result X) (r : R) :=
  x <- f (bed r) ;;
  Ok (mkRow (title r) (address r) x (bath r) (toilet r) (pkn_space r) (price r)).
Definition on_bath (f : D -> result X) (r : R) :=
  x <- f (bath r) ;;
  Ok (mkRow (title r) (address r) (bed r) x (toilet r) (pkn_space r) (price r)).
Definition on_toilet (f : E -> result X) (r : R) :=
  x <- f (toilet r) ;;
  Ok (mkRow (title r) (address r) (bed r) (bath r) x (pkn_space r) (price r)).
Definition on_pkn_space (f : F -> result X) (r : R) :=
  x <- f (pkn_space r) ;;
  Ok (mkRow (title r) (address r) (bed r) (bath r) (toilet r) x (price r)).
Definition on_price (f : G -> result X) (r : R) :=
  x <- f (price r) ;;
  Ok (mkRow (title r) (address r) (bed r) (bath r) (toilet r) (pkn_space r) x).

Definition apply_title (f : A -> result X) (df : list R) := mapM (on_title f) df.
Definition apply_address (f : B -> result X) (df : list R) := mapM (on_address f) df.
Definition apply_bed (f : C -> result X) (df : list R) := mapM (on_bed f) df.
Definition apply_bath (f : D -> result X) (df : list R) := mapM (on_bath f) df.
Definition apply_toilet (f : E -> result X) (df : list R) := mapM (on_toilet f) df.
Definition apply_pkn_space (f : F -> result X) (df : list R) := mapM (on_pkn_space f) df.
Definition apply_price (f : G -> result X) (df : list R) := mapM (on_price f) df.
End ColumnUpdate.

(** The cleaning loop over [df.columns], in column order. *)
Definition clean_columns (is_decimal : char -> bool) (df : list raw_row)
  : result (list text_row) :=
  df <- apply_title extract_details_cell df ;;
  df <- apply_address get_address_cell df ;;
  df <- apply_bed (clean_text_cell is_decimal) df ;;
  df <- apply_bath (clean_text_cell is_decimal) df ;;
  df <- apply_toilet (clean_text_cell is_decimal) df ;;
  df <- apply_pkn_space (clean_text_cell is_decimal) df ;;
  apply_price (clean_text_cell is_decimal) df.

(** Value of a string of the digits [0-9]. *)
Definition digits_value (s : str) : Z :=
  fold_left (fun acc c => (10 * acc + (Z.of_N c - 48))%Z) s 0%Z.

(** The largest signed and unsigned 64-bit integers. *)
Definition int64_max : Z := 9223372036854775807.
Definition uint64_max : Z := 18446744073709551615.

(** One element in the loop of [pd.to_numeric], on a string of decimal
    digits, the only strings [clean_text] produces: the empty string is a
    missing value, a run of the digits [0-9] is an integer, refused above
    the largest unsigned 64-bit integer, and any other decimal digit
    cannot be parsed.  (A run of several hundred digits is too long for
    the float parser and is refused as unparsable rather than as out of
    range; the exception is a [ValueError] in both cases, and no property
    below depends on its reason.) *)
Definition parse_integer (s : str) : result (option Z) :=
  match s with
  | [] => Ok None
  | _ => if forallb is_ascii_digit s
         then if (digits_value s <=? uint64_max)%Z
              then Ok (Some (digits_value s))
              else Raise (ValueError integer_out_of_range)
         else Raise (ValueError unable_to_parse_string)
  end.

(** What [pd.to_numeric] returns for a column of text: a column of
    numbers, or the column it was given. *)
Inductive converted :=
| Numbers (values : list num)
| Unchanged.

Definition is_missing (v : option Z) : bool :=
  match v with None => true | Some _ => false end.

Definition is_uint (v : option Z) : bool :=
  match v with Some z => (int64_max <? z)%Z | None => false end.

(** [pd.to_numeric(col)] on a column of strings of decimal digits.  The
    elements are parsed from top to bottom and the first one that is
    refused raises.  A column without a missing value holds the integers
    themselves (as int64, or as uint64 when one of them is above
    [int64_max]).  A column with a missing value is a column of floats:
    NaN for the empty strings and, for the others, the float that the
    parser of pandas read from the text; but when one of its integers is
    above [int64_max], pandas does not convert and returns the text column
    as it is.  [floatify] is that float parser; it is part of pandas, not
    of the repository, and is taken as a parameter. *)
Definition to_numeric (floatify : str -> Q) (col : list str) : result converted :=
  ints <- mapM parse_integer col ;;
  if existsb is_missing ints
  then if existsb is_uint ints
       then Ok Unchanged
       else Ok (Numbers (List.map (fun s => match s with
                                            | [] => None
                                            | _ => Some (floatify s)
                                            end) col))
  else Ok (Numbers (List.map (option_map inject_Z) ints)).

(** The numeric columns of the table. *)
Inductive column := Bed | Bath | Toilet | Pkn_space | Price.

Definition column_eqb (a b : column) : bool :=
  match a, b with
  | Bed, Bed | Bath, Bath | Toilet, Toilet | Pkn_space, Pkn_space
  | Price, Price => true
  | _, _ => false
  end.

(** The table after the conversion loop: its rows, and the columns that
    [pd.to_numeric] returned unchanged and that are still text.  The rows
    hold no value (NaN) in such a column; it is read through
    [text_columns] only. *)
Record frame := {
  rows : list row;
  text_columns : list column
}.

(** The cells of a converted column, one per row. *)
Definition cells (c : converted) (col : list str) : list num :=
  match c with
  | Numbers values => values
  | Unchanged => List.map (fun _ => None) col
  end.

(** The name of a column that is still text. *)
Definition still_text (name : column) (c : converted) : list column :=
  match c with
  | Numbers _ => []
  | Unchanged => [name]
  end.

(** The rows of a table whose five numeric columns are replaced. *)
Definition assign (df : list text_row) (b ba t p pr : list num) : list row :=
  List.map (fun x =>
              match x with
              | (r, (b, (ba, (t, (p, pr))))) =>
                  mkRow (title r) (address r) b ba t p pr
              end)
           (combine df (combine b (combine ba (combine t (combine p pr))))).

(** The conversion loop over the five numeric columns:
    [df[col] = pd.to_numeric(df[col])], each column converted from its own
    text, in the order of the list. *)
Definition convert_columns (floatify : str -> Q) (df : list text_row)
  : result frame :=
  let col f := List.map f df in
  b <- to_numeric floatify (col (@bed _ _ _ _ _ _ _)) ;;
  ba <- to_numeric floatify (col (@bath _ _ _ _ _ _ _)) ;;
  t <- to_numeric floatify (col (@toilet _ _ _ _ _ _ _)) ;;
  p <- to_numeric floatify (col (@pkn_space _ _ _ _ _ _ _)) ;;
  pr <- to_numeric floatify (col (@price _ _ _ _ _ _ _)) ;;
  Ok {| rows := assign df
                  (cells b (col (@bed _ _ _ _ _ _ _)))
                  (cells ba (col (@bath _ _ _ _ _ _ _)))
                  (cells t (col (@toilet _ _ _ _ _ _ _)))
                  (cells p (col (@pkn_space _ _ _ _ _ _ _)))
                  (cells pr (col (@price _ _ _ _ _ _ _)));
        text_columns := still_text Bed b ++ still_text Bath ba
                        ++ still_text Toilet t ++ still_text Pkn_space p
                        ++ still_text Price pr |}.

(* ================================================================== *)
(** * Numeric columns *)
(* ================================================================== *)

Definition Qltb (x y : Q) : bool :=
  match Qcompare x y with Lt => true | _ => false end.

(** Comparisons of a numeric cell with a constant: NaN compares false. *)
Definition num_gt (x : num) (k : Q) : bool :=
  match x with Some q => Qltb k q | None => false end.

Definition num_lt (x : num) (k : Q) : bool :=
  match x with Some q => Qltb q k | None => false end.

(** [x <= y] between two numeric values, false as soon as one is NaN. *)
Definition num_le (x y : num) : bool :=
  match x, y with
  | Some a, Some b => Qle_bool a b
  | _, _ => false
  end.

Definition num_isna (x : num) : bool :=
  match x with None => true | Some _ => false end.

(** Ascending sort of the values of a column. *)
Fixpoint insert_sorted (x : Q) (l : list Q) : list Q :=
  match l with
  | [] => [x]
  | y :: l' => if Qle_bool x y then x :: l else y :: insert_sorted x l'
  end.

Definition sort_values (l : list Q) : list Q :=
  fold_right insert_sorted [] l.

(** The values of a column, or nothing when a NaN is present. *)
Fixpoint all_values (a : list num) : option (list Q) :=
  match a with
  | [] => Some []
  | None :: _ => None
  | Some q :: a' => option_map (cons q) (all_values a')
  end.

(** The values of a column that are not NaN. *)
Fixpoint present_values (a : list num) : list Q :=
  match a with
  | [] => []
  | None :: a' => present_values a'
  | Some q :: a' => q :: present_values a'
  end.

(** The value at the fractional rank [q/100 * (n-1)] of the sorted data,
    by linear interpolation between its two neighbours; NaN when the data
    hold a NaN. *)
Definition linear_interpolation (a : list num) (q : Q) : num :=
  match all_values a with
  | None => None
  | Some vs =>
      match sort_values vs with
      | [] => None
      | (x :: _) as s =>
          let n := length s in
          let pos := q / 100 * inject_Z (Z.of_nat (n - 1)) in
          let lo := Qfloor pos in
          let gamma := pos - inject_Z lo in
          let previous := nth (Z.to_nat lo) s x in
          let next := nth (Nat.min (Z.to_nat lo + 1) (n - 1)) s x in
          Some (Qred (previous + gamma * (next - previous)))
      end
  end.

(** [np.percentile(a, q)] with the default linear interpolation.  An
    empty column has no rank to read and raises [IndexError]. *)
Definition percentile (a : list num) (q : Q) : result num :=
  match a with
  | [] => Raise IndexError
  | _ :: _ => Ok (linear_interpolation a q)
  end.

(** [Series.median()]: NaN is skipped; the middle value, or the mean of
    the two middle values; NaN when nothing is left. *)
Definition median (a : list num) : num :=
  match sort_values (present_values a) with
  | [] => None
  | (x :: _) as s =>
      let n := length s in
      if Nat.even n
      then Some (Qred ((nth (n / 2 - 1) s x + nth (n / 2) s x) / 2))
      else Some (nth (n / 2) s x)
  end.

(* ================================================================== *)
(** * Row filters, imputation and location truncation *)
(* ================================================================== *)

(** [df.loc[(df["bed"] > 1) & (df["toilet"] < 8)]] *)
Definition filter_bed_toilet (df : list row) : list row :=
  filter (fun r => num_gt (bed r) 1 && num_lt (toilet r) 8) df.

(** [df.loc[(df["bath"] > 1) & (df["bath"] < 8)]] *)
Definition filter_bath (df : list row) : list row :=
  filter (fun r => num_gt (bath r) 1 && num_lt (bath r) 8) df.

(** [df.loc[(df["pkn_space"] > 2) & (df["pkn_space"] < 11)]] *)
Definition filter_pkn_space (df : list row) : list row :=
  filter (fun r => num_gt (pkn_space r) 2 && num_lt (pkn_space r) 11) df.

(** The three range filters, in source order. *)
Definition range_filters (df : list row) : list row :=
  filter_pkn_space (filter_bath (filter_bed_toilet df)).

(** [df.loc[df["price"] <= cut_off]] *)
Definition price_at_most (cut_off : num) (df : list row) : list row :=
  filter (fun r => num_le (price r) cut_off) df.

(** The outlier cut: the cut-off is the 96th percentile of the prices
    of the table it is applied to. *)
Definition cut_off_of (df : list row) : result num :=
  percentile (List.map (@price _ _ _ _ _ _ _) df) 96.

Definition price_cut (df : list row) : result (list row) :=
  cut_off <- cut_off_of df ;;
  Ok (price_at_most cut_off df).

(** The row-filtering stage: range filters, then the price cut. *)
Definition filter_rows (df : list row) : result (list row) :=
  price_cut (range_filters df).

(** [np.where(pd.isna(col), median, col)] on one value. *)
Definition where_isna (median x : num) : num :=
  if num_isna x then median else x.

(** Median imputation of [pkn_space]. *)
Definition impute_pkn_space (df : list row) : list row :=
  let median := median (List.map (@pkn_space _ _ _ _ _ _ _) df) in
  List.map (fun r => mkRow (title r) (address r) (bed r) (bath r) (toilet r)
                       (where_isna median (pkn_space r)) (price r)) df.

(** After the renaming, [address] is the column [location]. *)
Definition location (r : row) : str := address r.

(** Sorted insertion of a key that is not yet present. *)
Fixpoint insert_key (k : str) (l : list str) : list str :=
  match l with
  | [] => [k]
  | y :: l' =>
      match str_compare k y with
      | Lt => k :: l
      | Eq => l
      | Gt => y :: insert_key k l'
      end
  end.

(** The distinct values of a column in ascending order. *)
Definition unique (l : list str) : list str :=
  fold_right insert_key [] l.

Definition count (k : str) (l : list str) : nat :=
  count_occ str_eq_dec l k.

(** [pd.crosstab(index=df["location"], columns="Count")]: one line per
    distinct location, in ascending order of the location, with the
    number of rows that carry it. *)
Definition crosstab (locs : list str) : list (str * nat) :=
  List.map (fun k => (k, count k locs)) (unique locs).

(** [sort_values(ascending=False)] of the count column: descending by
    count.  Lines of equal count stay in their incoming order here; the
    default sort of numpy does not promise an order among them, and no
    property below depends on it. *)
Fixpoint insert_desc (x : str * nat) (l : list (str * nat)) : list (str * nat) :=
  match l with
  | [] => [x]
  | y :: l' => if (snd y <=? snd x)%nat then x :: l else y :: insert_desc x l'
  end.

Definition sort_desc (l : list (str * nat)) : list (str * nat) :=
  fold_right insert_desc [] l.

(** [addr_count]: the frequency table sorted by descending count. *)
Definition addr_count (df : list row) : list (str * nat) :=
  sort_desc (crosstab (List.map location df)).

(** [addr_count.columns = ["Count"]]: the frequency table has one
    column, the counts, which is renamed.  The frequency table of a table
    without rows has no column at all, and giving it one name raises. *)
Definition rename_count (table : list (str * nat))
  : result (list (str * nat)) :=
  match table with
  | [] => Raise (ValueError length_mismatch)
  | _ :: _ => Ok table
  end.

(** [locations]: the keys of the first 15 lines. *)
Definition locations (df : list row) : list str :=
  List.map fst (firstn 15 (addr_count df)).

Definition isin (x : str) (l : list str) : bool :=
  existsb (str_eqb x) l.

(** [df.loc[df["location"].isin(locations)]] *)
Definition filter_locations (df : list row) : list row :=
  filter (fun r => isin (location r) (locations df)) df.

(** The table the encoders are fitted on: filters, imputation and
    location truncation applied to a converted table. *)
Definition select_rows (df : list row) : result (list row) :=
  df <- filter_rows df ;;
  let df := impute_pkn_space df in
  _ <- rename_count (addr_count df) ;;
  Ok (filter_locations df).

(** A comparison of the column [name] with a number, on a table that has
    a row: a column that is still text raises [TypeError]. *)
Definition compare (text : list column) (name : column) (df : list row)
  : result unit :=
  match df with
  | [] => Ok tt
  | _ :: _ => if existsb (column_eqb name) text then Raise TypeError else Ok tt
  end.

(** The lines that read the numeric columns, on a converted table some
    of whose columns may still be text: the three range filters compare
    [bed] and [toilet], then [bath], then [pkn_space], each on the rows
    the filters before it kept, and [np.percentile] reads [price] on the
    rows that are left (on no row it raises [IndexError] whatever the
    column holds, which [filter_rows] reports). *)
Definition read_columns (text : list column) (df : list row) : result unit :=
  _ <- compare text Bed df ;;
  _ <- compare text Toilet df ;;
  let df := filter_bed_toilet df in
  _ <- compare text Bath df ;;
  let df := filter_bath df in
  _ <- compare text Pkn_space df ;;
  let df := filter_pkn_space df in
  compare text Price df.

(** Conversion and selection, from a cleaned table. *)
Definition train_rows (floatify : str -> Q) (df : list text_row)
  : result (list row) :=
  df <- convert_columns floatify df ;;
  _ <- read_columns (text_columns df) (rows df) ;;
  select_rows (rows df).

(** [clean_data_n_return_estimator] up to the fit: from the raw table to
    the table the encoders and the regressor are fitted on. *)
Definition clean_data_n_return_estimator (is_decimal : char -> bool)
           (floatify : str -> Q) (data : list raw_row) : result (list row) :=
  df <- clean_columns is_decimal (dropna data) ;;
  train_rows floatify df.

(* ================================================================== *)
(** * Label encoder, price transform and the predictor ([server.py]) *)
(* ================================================================== *)

(** A fitted [LabelEncoder]: its sorted distinct classes. *)
Record LabelEncoder := { classes_ : list str }.

Definition fit (y : list str) : LabelEncoder := {| classes_ := unique y |}.

(** Position of a label among the classes. *)
Fixpoint index_of (x : str) (l : list str) : option nat :=
  match l with
  | [] => None
  | y :: l' => if str_eqb x y then Some 0%nat else option_map S (index_of x l')
  end.

(** [LabelEncoder.transform]: every label is looked up among the
    classes; a label that is not there is reported as unseen. *)
Definition transform (le : LabelEncoder) (y : list str) : result (list nat) :=
  mapM (fun x => match index_of x (classes_ le) with
                 | Some i => Ok i
                 | None => Raise (ValueError (previously_unseen_labels x))
                 end) y.

(** [np.log(price + 1)], the training transform of the price. *)
Definition log_price (price : R) : R := ln (price + 1)%R.

(** [round(x, 0)] on a float: to the nearest integer, ties to even. *)
Definition round0 (x : R) : R :=
  let f := Int_part x in
  let d := frac_part x in
  if Rlt_dec d (1 / 2)%R then IZR f
  else if Rlt_dec (1 / 2)%R d then IZR (f + 1)
  else if Z.even f then IZR f else IZR (f + 1).

(** The conversion of a predicted log-price in [predict]:
    [np.exp(price) + 1], rounded. *)
Definition act_price (price : R) : R := round0 (exp price + 1)%R.

(** The loaded artifact, as far as [predict] reads it: the regressor,
    which maps the feature row to a log-price or raises, and the location
    encoder. *)
Record estimator := {
  reg : list str -> result R;
  le_location : LabelEncoder
}.

(** The fields of the submitted form, every one of them filled in. *)
Record form := {
  form_location : str;
  form_bed : str;
  form_bath : str;
  form_toilet : str;
  form_pkn_space : str
}.

(** Decimal text of a code. *)
Definition str_of_nat (n : nat) : str :=
  py (NilEmpty.string_of_uint (Nat.to_uint n)).

(** Width of the string array [np.array(new_data)]: its longest entry,
    at least one character. *)
Definition itemsize (l : list str) : nat :=
  fold_right (fun s w => Nat.max (length s) w) 1%nat l.

Definition NUL : char := 0%N.

Fixpoint lstrip_nul (s : str) : str :=
  match s with
  | c :: s' => if char_eqb c NUL then lstrip_nul s' else s
  | [] => []
  end.

(** An element read from a string array.  The array stores every string
    in [itemsize] characters, padded with NUL, and reads it back up to
    its last character that is not NUL: a string that ends with NUL
    characters comes back without them. *)
Definition element (s : str) : str := rev (lstrip_nul (rev s)).

(** [predict]: store the form in a string array, encode the location as
    the array holds it, store the code back into the array (which keeps
    [itemsize] characters of it), run the regressor on the array and
    convert its output. *)
Definition predict (est : estimator) (f : form) : result R :=
  let new_data := [form_location f; form_bed f; form_bath f;
                   form_toilet f; form_pkn_space f] in
  let width := itemsize new_data in
  let new_data := List.map element new_data in
  codes <- transform (le_location est) (firstn 1 new_data) ;;
  let encoded := List.map (fun c => firstn width (str_of_nat c)) codes in
  let new_data := encoded ++ tl new_data in
  price <- reg est new_data ;;
  Ok (act_price price).

(* ================================================================== *)
(** * Specification vocabulary and sample tables *)
(* ================================================================== *)

(** The ranges the specification states for a cleaned record. *)
Definition in_range (r : row) : Prop :=
  exists b ba t p,
    bed r = Some b /\ bath r = Some ba /\ toilet r = Some t
    /\ pkn_space r = Some p
    /\ 1 < b /\ 1 < ba /\ ba < 8 /\ t < 8 /\ 2 < p /\ p < 11.

(** The price of a record is a number at most [cut]. *)
Definition price_within (cut : num) (r : row) : Prop :=
  exists c p, cut = Some c /\ price r = Some p /\ p <= c.

(** Strict order of Python strings. *)
Definition str_lt (a b : str) : Prop := str_compare a b = Lt.

(** Lines of a count table in descending order of the count. *)
Definition desc_by_count (a b : str * nat) : Prop := (snd b <= snd a)%nat.

(** The record has a value in [pkn_space]. *)
Definition has_pkn_space (r : row) : Prop := pkn_space r <> None.

(** A converted record with whole-number columns. *)
Definition listing (loc : str) (b ba t p pr : Z) : row :=
  mkRow (py "Duplex") loc (Some (inject_Z b)) (Some (inject_Z ba))
        (Some (inject_Z t)) (Some (inject_Z p)) (Some (inject_Z pr)).

(** Three in-range listings priced 1, 2 and 3. *)
Definition three_listings : list row :=
  [listing (py "Lekki") 3 3 3 3 1;
   listing (py "Ikoyi") 3 3 3 3 2;
   listing (py "Ajah") 3 3 3 3 3].

(** An artifact whose location encoder was fitted on two locations and
    whose regressor answers a constant, and a form for a third location. *)
Definition sample_estimator : estimator :=
  {| reg := fun _ => Ok 0%R;
     le_location := fit [py "Lekki"; py "Ajah"; py "Lekki"] |}.

Definition sample_form : form :=
  {| form_location := py "Yaba"; form_bed := py "3"; form_bath := py "3";
     form_toilet := py "4"; form_pkn_space := py "3" |}.

(** A form whose location is a fitted label followed by a NUL
    character. *)
Definition lekki_nul_form : form :=
  {| form_location := py "Lekki" ++ [NUL]; form_bed := py "3";
     form_bath := py "3"; form_toilet := py "4"; form_pkn_space := py "3" |}.

(** Two computations end the same way: with the same value, or both
    with an exception. *)
Definition same_outcome (A : Type) (m1 m2 : result A) : Prop :=
  match m1, m2 with
  | Ok a, Ok b => a = b
  | Raise _, Raise _ => True
  | _, _ => False
  end.

(** The cleaning loop read row by row. *)
Definition clean_row (is_decimal : char -> bool) (r : raw_row) : result text_row :=
  r <- on_title extract_details_cell r ;;
  r <- on_address get_address_cell r ;;
  r <- on_bed (clean_text_cell is_decimal) r ;;
  r <- on_bath (clean_text_cell is_decimal) r ;;
  r <- on_toilet (clean_text_cell is_decimal) r ;;
  r <- on_pkn_space (clean_text_cell is_decimal) r ;;
  on_price (clean_text_cell is_decimal) r.

(** The empty string and the runs of the digits [0-9]. *)
Definition numeral (s : str) : Prop :=
  s = [] \/ forallb is_ascii_digit s = true.

(** The integer a run of the digits [0-9] writes, none for the empty
    string. *)
Definition integer_of (s : str) : option Z :=
  match s with
  | [] => None
  | _ => Some (digits_value s)
  end.

(** The same as a numeric cell. *)
Definition number_of (s : str) : num := option_map inject_Z (integer_of s).

(** A cleaned row with its five numeric fields read as numbers. *)
Definition numbers_row (r : text_row) : row :=
  mkRow (title r) (address r) (number_of (bed r)) (number_of (bath r))
        (number_of (toilet r)) (number_of (pkn_space r))
        (number_of (price r)).

(** The elements of a column are parsed, from top to bottom. *)
Definition parses (col : list str) : result unit :=
  _ <- mapM parse_integer col ;;
  Ok tt.

(** The elements of the five numeric columns are parsed, column after
    column. *)
Definition parse_columns (df : list text_row) : result unit :=
  _ <- parses (List.map (@bed _ _ _ _ _ _ _) df) ;;
  _ <- parses (List.map (@bath _ _ _ _ _ _ _) df) ;;
  _ <- parses (List.map (@toilet _ _ _ _ _ _ _) df) ;;
  _ <- parses (List.map (@pkn_space _ _ _ _ _ _ _) df) ;;
  parses (List.map (@price _ _ _ _ _ _ _) df).

(** The five numeric fields of the row are empty or runs of the digits
    [0-9]. *)
Definition numerals (r : text_row) : Prop :=
  numeral (bed r) /\ numeral (bath r) /\ numeral (toilet r)
  /\ numeral (pkn_space r) /\ numeral (price r).

(** The float parser reads a run of at most 15 digits as the number it
    writes: such a number is a float, and so is every step of the
    parser's sum. *)
Definition exact_to_15_digits (floatify : str -> Q) : Prop :=
  forall s, forallb is_ascii_digit s = true -> (length s <= 15)%nat ->
            floatify s = inject_Z (digits_value s).

(** No numeric field of the row has more than 15 characters. *)
Definition short_numbers (r : text_row) : Prop :=
  (length (bed r) <= 15)%nat /\ (length (bath r) <= 15)%nat
  /\ (length (toilet r) <= 15)%nat /\ (length (pkn_space r) <= 15)%nat
  /\ (length (price r) <= 15)%nat.

(** The float nearest to a whole number, a tie going to the even
    mantissa of 53 bits. *)
Definition nearest_float (z : Z) : Z :=
  if (z <? 2 ^ 53)%Z then z
  else
    let e := (Z.log2 z - 52)%Z in
    let m := (z / 2 ^ e)%Z in
    let r := (z mod 2 ^ e)%Z in
    let half := (2 ^ (e - 1))%Z in
    ((if (r <? half)%Z then m
      else if (half <? r)%Z then (m + 1)%Z
      else if Z.even m then m else (m + 1)%Z) * 2 ^ e)%Z.

(** A float parser that rounds correctly. *)
Definition correctly_rounded (s : str) : Q :=
  inject_Z (nearest_float (digits_value s)).

Definition is_text (c : cell) : bool :=
  match c with Str _ => true | _ => false end.

(** Every cell of the row is text. *)
Definition all_text (r : raw_row) : bool :=
  is_text (title r) && is_text (address r) && is_text (bed r)
  && is_text (bath r) && is_text (toilet r) && is_text (pkn_space r)
  && is_text (price r).

(** The text of a text cell. *)
Definition cell_text (c : cell) : str :=
  match c with Str s => s | _ => [] end.

(** A row of text cells with each field cleaned by its cleaner. *)
Definition cleaned_row (is_decimal : char -> bool) (r : raw_row) : text_row :=
  mkRow (extract_details (cell_text (title r)))
        (get_address (cell_text (address r)))
        (clean_text is_decimal (cell_text (bed r)))
        (clean_text is_decimal (cell_text (bath r)))
        (clean_text is_decimal (cell_text (toilet r)))
        (clean_text is_decimal (cell_text (pkn_space r)))
        (clean_text is_decimal (cell_text (price r))).

(** The characters the literals of the pattern are made of. *)
Definition pattern_char (p : char) : bool :=
  is_ascii_lower p || char_eqb p 32%N || char_eqb p 45%N.

(** The pattern character a text character matches, if it matches one:
    its lower case, with dotless i read as i and long s as s. *)
Definition pattern_of (c : char) : char :=
  let ch := sre_lower c in
  if char_eqb ch i_dotless then 105%N
  else if char_eqb ch long_s then 115%N
  else ch.

Definition canon (s : str) : str := List.map pattern_of s.

(** [kw] is a prefix of [s]. *)
Fixpoint starts_with (kw s : str) : bool :=
  match kw with
  | [] => true
  | p :: kw' =>
      match s with
      | c :: s' => char_eqb c p && starts_with kw' s'
      | [] => false
      end
  end.

(** The code points below [n]. *)
Definition code_points (n : nat) : list char := List.map N.of_nat (seq 0 n).

(** The code points with a case table entry: those up to [long_s], and
    [kelvin]. *)
Definition tabled_code_points : list char := code_points 384 ++ [kelvin].

(** Matching a pattern character is comparing it with [pattern_of]. *)
Definition match_by_pattern_of (c : char) : bool :=
  forallb (fun p => implb (pattern_char p)
                      (Bool.eqb (ci_match p c) (char_eqb (pattern_of c) p)))
          (code_points 123).

(** [title_char] maps a character other than [I_dot] to one character,
    which matches the same pattern character, is cased alike, is not
    [I_dot] and is left unchanged by [title_char]. *)
Definition title_char_stable (b : bool) (c : char) : bool :=
  char_eqb c I_dot
  || match title_char b c with
     | [c'] => char_eqb (pattern_of c') (pattern_of c)
               && Bool.eqb (is_cased c') (is_cased c)
               && negb (char_eqb c' I_dot)
               && str_eqb (title_char b c') [c']
     | _ => false
     end.

(** The title MANSION written with a dotted capital I (U+0130). *)
Definition mansion_dotted : str := py "MANS" ++ [I_dot] ++ py "ON".

(** A title whose keywords use dotless i, long s and the Kelvin sign. *)
Definition title_with_variants : str :=
  py "5 bed " ++ [long_s] ++ py "EM" ++ [i_dotless] ++ py "-DETACHED HOU"
     ++ [long_s] ++ py "E, BLOC" ++ [kelvin] ++ py " OF FLATS".

(** The three range tests on one row. *)
Definition passes_ranges (r : row) : bool :=
  (num_gt (bed r) 1 && num_lt (toilet r) 8)
  && (num_gt (bath r) 1 && num_lt (bath r) 8)
  && (num_gt (pkn_space r) 2 && num_lt (pkn_space r) 11).

(** A scraped listing, every field text. *)
Definition scraped (ti ad b ba t p pr : str) : raw_row :=
  mkRow (Str ti) (Str ad) (Str b) (Str ba) (Str t) (Str p) (Str pr).

(** A table of two listings whose second [bed] cell is a number. *)
Definition table_with_numeric_bed : list raw_row :=
  [scraped (py "4 bedroom detached duplex") (py "Chevron, Lekki, Lagos")
           (py "4 beds") (py "4 baths") (py "5 Toilets") (py "3 Parking")
           (py "85,000,000");
   mkRow (Str (py "3 bedroom terraced house")) (Str (py "Ajah, Lagos"))
         (Num 3) (Str (py "3 baths")) (Str (py "4 Toilets"))
         (Str (py "3 Parking")) (Str (py "45,000,000"))].

(** A cleaned listing that converts and is in range, and one whose price
    text held no digit. *)
Definition good_text_row : text_row :=
  mkRow (py "Detached Duplex") (py "Lekki") (py "4") (py "4") (py "5")
        (py "3") (py "85000000").

Definition priceless_text_row : text_row :=
  mkRow (py "Terraced House") (py "Ajah") (py "3") (py "3") (py "4")
        (py "3") (py "").

(** The two listings, converted. *)
Definition good_row : row :=
  mkRow (py "Detached Duplex") (py "Lekki") (Some 4) (Some 4) (Some 5)
        (Some 3) (Some 85000000).

Definition priceless_row : row :=
  mkRow (py "Terraced House") (py "Ajah") (Some 3) (Some 3) (Some 4)
        (Some 3) None.

(** A cleaned listing whose [bed] text held no digit. *)
Definition bedless_text_row : text_row :=
  mkRow (py "Terraced House") (py "Ajah") (py "") (py "3") (py "4")
        (py "3") (py "45000000").

(** The cell is text or missing, not a number. *)
Definition not_number (c : cell) : bool :=
  match c with Num _ => false | _ => true end.

(** No cell of the row is a number. *)
Definition no_number (r : raw_row) : bool :=
  not_number (title r) && not_number (address r) && not_number (bed r)
  && not_number (bath r) && not_number (toilet r) && not_number (pkn_space r)
  && not_number (price r).

(** The decimal digits of the text are among [0-9]. *)
Definition plain_digits (is_decimal : char -> bool) (s : str) : Prop :=
  forall c, In c s -> is_decimal c = true -> is_ascii_digit c = true.



(** A text that holds one decimal number, between two texts. *)
Record decimal_field := {
  before : str;
  number : nat;
  after : str
}.

Definition field_text (x : decimal_field) : str :=
  before x ++ str_of_nat (number x) ++ after x.

(** No decimal digit stands before or after the number. *)
Definition one_number (is_decimal : char -> bool) (x : decimal_field) : Prop :=
  forall c, In c (before x ++ after x) -> is_decimal c = false.

(** A column of prices as scraped, one of them on request. *)
Definition scraped_prices : list str :=
  [8358%N :: py "1,200,000"; py "Price on request"; py "N 45,000,000"].

(** A column of counts followed by their unit. *)
Definition scraped_beds : list decimal_field :=
  [{| before := []; number := 4; after := py " beds" |};
   {| before := py "N"; number := 35; after := py " beds" |}].

(** A cleaned listing whose price has 23 digits. *)
Definition overpriced_text_row : text_row :=
  mkRow (py "Detached Duplex") (py "Lekki") (py "4") (py "4") (py "5")
        (py "3") (py "85000000000000000000000").

(** The five numeric fields of a cleaned row. *)
Definition numeric_fields (r : text_row) : list str :=
  [bed r; bath r; toilet r; pkn_space r; price r].

(** A table as scraped: two complete listings and one without price. *)
Definition scraped_table : list raw_row :=
  [scraped (py "4 bedroom detached duplex") (py "Chevron, Lekki, Lagos")
           (py "4 beds") (py "4 baths") (py "5 Toilets") (py "3 Parking")
           (py "85,000,000");
   mkRow (Str (py "Land")) (Str (py "Epe, Lagos")) (Str (py "0"))
         (Str (py "0")) (Str (py "0")) (Str (py "0")) NA;
   scraped (py "3 bedroom terraced house") (py "Ajah, Lagos")
           (py "3 beds") (py "3 baths") (py "4 Toilets") (py "3 Parking")
           (py "45,000,000")].

(** [le.fit_transform(y)]: fit the encoder on the labels and encode
    them. *)
Definition fit_transform (y : list str) : result (list nat) :=
  transform (fit y) y.

(** [load_data]: the tables read from the files of the directory, in
    listing order, appended one after the other to an empty frame. *)
Definition load_data (files : list (list raw_row)) : list raw_row :=
  fold_left (fun all_df df => all_df ++ df) files [].

(** [x <= y] holds between two prices. *)
Definition price_le (r r' : row) : Prop := num_le (price r) (price r') = true.

(** A converted listing that is in range and has no price. *)
Definition priceless_listing : row :=
  mkRow (py "Duplex") (py "Ajah") (Some 3) (Some 3) (Some 4) (Some 3) None.

(** The record has a price. *)
Definition has_price (r : row) : Prop := price r <> None.

(** Case analysis on the comparisons of code points in the goal. *)
Ltac char_tests :=
  repeat match goal with
         | |- context [N.leb ?a ?b] => destruct (N.leb_spec a b); try (exfalso; lia)
         | |- context [N.eqb ?a ?b] => destruct (N.eqb_spec a b); try (exfalso; lia)
         end.

(* ================================================================== *)
(** * Properties of the string operations *)
(* ================================================================== *)

Lemma char_eqb_eq (a b : char) : char_eqb a b = true <-> a = b.
Proof. apply N.eqb_eq. Qed.

Lemma char_eqb_refl (a : char) : char_eqb a a = true.
Proof. apply N.eqb_refl. Qed.

Lemma str_eqb_eq (a b : str) : str_eqb a b = true <-> a = b.
Proof.
  revert b; induction a as [|x a IH]; intros [|y b]; simpl;
    try (split; [discriminate | discriminate]); try tauto.
  rewrite andb_true_iff, char_eqb_eq, IH.
  split; [intros [-> ->]; reflexivity | intros H; inversion H; auto].
Qed.

Lemma split_not_nil (sep : char) (s : str) : split sep s <> [].
Proof.
  induction s as [|c s IH]; simpl; [discriminate|].
  destruct (char_eqb c sep); [discriminate|].
  destruct (split sep s); [congruence | discriminate].
Qed.

(** Joining the segments with the separator gives the string back. *)
Lemma join_split (sep : char) (s : str) : join [sep] (split sep s) = s.
Proof.
  induction s as [|c s IH]; simpl; [reflexivity|].
  destruct (char_eqb c sep) eqn:E.
  - apply char_eqb_eq in E; subst c.
    destruct (split sep s) eqn:Es; [now apply split_not_nil in Es|].
    simpl in *. now rewrite IH.
  - destruct (split sep s) as [|seg segs] eqn:Es; [now apply split_not_nil in Es|].
    destruct segs; simpl in *; now rewrite <- IH.
Qed.

(** No segment contains the separator. *)
Lemma split_no_sep (sep : char) (s : str) :
  Forall (fun seg => ~ In sep seg) (split sep s).
Proof.
  induction s as [|c s IH]; simpl.
  - constructor; [intros []|constructor].
  - destruct (char_eqb c sep) eqn:E.
    + constructor; [intros []|exact IH].
    + destruct (split sep s) as [|seg segs]; [constructor; [|constructor]|].
      * intros [->|[]]. now rewrite char_eqb_refl in E.
      * inversion IH; subst. constructor; [|assumption].
        intros [->|H]; [now rewrite char_eqb_refl in E | contradiction].
Qed.

Lemma firstn_1_skipn (A : Type) (d : A) (l : list A) (k : nat) :
  (k < length l)%nat -> firstn 1 (skipn k l) = [nth k l d].
Proof.
  revert k; induction l as [|a l IH]; intros k Hk; simpl in Hk; [lia|].
  destruct k as [|k]; [reflexivity|].
  simpl. apply IH. lia.
Qed.

(** The slice [l[-2:-1]] is the element before the last when there are
    two elements or more, and is empty otherwise. *)
Lemma py_slice_penultimate (A : Type) (d : A) (l : list A) :
  py_slice l (-2) (-1) =
  if (2 <=? length l)%nat then [nth (length l - 2) l d] else [].
Proof.
  unfold py_slice, slice_bound.
  change (-2 <? 0)%Z with true. change (-1 <? 0)%Z with true. cbv iota.
  destruct (Nat.leb_spec 2 (length l)) as [H|H].
  - replace (Z.to_nat (Z.max 0 (-2 + Z.of_nat (length l)))) with (length l - 2)%nat by lia.
    replace (Z.to_nat (Z.max 0 (-1 + Z.of_nat (length l)) - Z.max 0 (-2 + Z.of_nat (length l)))) with 1%nat by lia.
    apply firstn_1_skipn. lia.
  - replace (Z.to_nat (Z.max 0 (-1 + Z.of_nat (length l)) - Z.max 0 (-2 + Z.of_nat (length l)))) with 0%nat by lia.
    reflexivity.
Qed.

Example get_address_city :
  get_address (py "12 Admiralty Way, Lekki ,  Lagos ") = py "Lekki".
Proof. reflexivity. Qed.

Example get_address_one_segment : get_address (py "Lagos") = [].
Proof. reflexivity. Qed.

Example clean_text_price :
  clean_text is_ascii_digit (8358%N :: py "1,200,000") = py "1200000".
Proof. reflexivity. Qed.

Example extract_details_title :
  extract_details (py "4 bedroom SEMI-DETACHED duplex in a block of FLATS")
  = py "Semi-Detached Duplex Block Of Flats".
Proof. reflexivity. Qed.

(** C3. [get_address] returns the second-to-last comma-separated segment
    of the address, stripped of leading and trailing whitespace, when the
    address splits into at least two segments, and the empty string when
    it splits into fewer. *)
Theorem get_address_second_to_last (addr : str) :
  let segments := split comma addr in
  get_address addr =
  if (2 <=? length segments)%nat
  then strip (nth (length segments - 2) segments [])
  else [].
Proof.
  intros segments. unfold get_address. fold segments.
  cbv zeta. rewrite (@py_slice_penultimate str [] segments).
  destruct (2 <=? length segments)%nat; reflexivity.
Qed.

(* ================================================================== *)
(** * Properties of the numeric comparisons and of the filters *)
(* ================================================================== *)

Lemma Qltb_lt (x y : Q) : Qltb x y = true <-> x < y.
Proof.
  unfold Qltb. rewrite Qlt_alt.
  destruct (x ?= y); split; congruence.
Qed.

Lemma num_gt_spec (x : num) (k : Q) :
  num_gt x k = true <-> exists q, x = Some q /\ k < q.
Proof.
  destruct x as [q|]; simpl.
  - rewrite Qltb_lt. split; [eauto | intros (q' & [= <-] & H); exact H].
  - split; [discriminate | intros (q' & [=] & _)].
Qed.

Lemma num_lt_spec (x : num) (k : Q) :
  num_lt x k = true <-> exists q, x = Some q /\ q < k.
Proof.
  destruct x as [q|]; simpl.
  - rewrite Qltb_lt. split; [eauto | intros (q' & [= <-] & H); exact H].
  - split; [discriminate | intros (q' & [=] & _)].
Qed.

Lemma num_le_spec (x y : num) :
  num_le x y = true <-> exists a b, x = Some a /\ y = Some b /\ a <= b.
Proof.
  destruct x as [a|], y as [b|]; simpl;
    try (split; [discriminate | intros (? & ? & [=] & [=] & _)]).
  - rewrite Qle_bool_iff.
    split; [eauto | intros (a' & b' & [= <-] & [= <-] & H); exact H].
Qed.

Lemma filter_idempotent (A : Type) (f : A -> bool) (l : list A) :
  filter f (filter f l) = filter f l.
Proof.
  induction l as [|a l IH]; simpl; [reflexivity|].
  destruct (f a) eqn:E; simpl; [rewrite E, IH|]; auto.
Qed.

Lemma filter_all (A : Type) (f : A -> bool) (l : list A) :
  Forall (fun a => f a = true) l -> filter f l = l.
Proof.
  induction 1 as [|a l Ha _ IH]; simpl; [reflexivity|].
  now rewrite Ha, IH.
Qed.

(** A row passes the three range filters exactly when it is in range. *)
Lemma range_filters_In (df : list row) (r : row) :
  In r (range_filters df) <-> In r df /\ in_range r.
Proof.
  unfold range_filters, filter_pkn_space, filter_bath, filter_bed_toilet, in_range.
  rewrite !filter_In, !andb_true_iff, !num_gt_spec, !num_lt_spec.
  split.
  - intros [[[Hin [(b & Hb & Hb1) (t & Ht & Ht8)]]
               [(ba & Hba & Hba1) (ba' & Hba' & Hba8)]]
               [(p & Hp & Hp2) (p' & Hp' & Hp11)]].
    split; [assumption|].
    exists b, ba, t, p.
    rewrite Hba in Hba'. injection Hba' as <-.
    rewrite Hp in Hp'. injection Hp' as <-.
    tauto.
  - intros [Hin (b & ba & t & p & Hb & Hba & Ht & Hp & H)].
    repeat split; eauto; try (eexists; split; [eassumption | tauto]).
Qed.

(** The range filters keep exactly the rows they already kept. *)
Lemma range_filters_fixpoint (df : list row) :
  Forall in_range df -> range_filters df = df.
Proof.
  intros H. unfold range_filters.
  assert (H1 : filter_bed_toilet df = df).
  { apply filter_all. eapply Forall_impl; [|exact H].
    intros r (b & ba & t & p & Hb & Hba & Ht & Hp & Hr).
    rewrite andb_true_iff, num_gt_spec, num_lt_spec.
    split; eexists; (split; [eassumption | tauto]). }
  assert (H2 : filter_bath df = df).
  { apply filter_all. eapply Forall_impl; [|exact H].
    intros r (b & ba & t & p & Hb & Hba & Ht & Hp & Hr).
    rewrite andb_true_iff, num_gt_spec, num_lt_spec.
    split; eexists; (split; [eassumption | tauto]). }
  rewrite H1, H2.
  apply filter_all. eapply Forall_impl; [|exact H].
  intros r (b & ba & t & p & Hb & Hba & Ht & Hp & Hr).
  rewrite andb_true_iff, num_gt_spec, num_lt_spec.
  split; eexists; (split; [eassumption | tauto]).
Qed.

Lemma range_filters_in_range (df : list row) : Forall in_range (range_filters df).
Proof.
  apply Forall_forall. intros r Hr. now apply range_filters_In in Hr.
Qed.

Lemma price_at_most_In (cut : num) (df : list row) (r : row) :
  In r (price_at_most cut df) <-> In r df /\ price_within cut r.
Proof.
  unfold price_at_most, price_within. rewrite filter_In, num_le_spec.
  split; intros [Hin H]; (split; [assumption|]).
  - destruct H as (a & b & Ha & Hb & Hle). eauto.
  - destruct H as (c & p & Hc & Hp & Hle). eauto.
Qed.

Lemma percentile_ok (a : list num) (q : Q) (cut : num) :
  percentile a q = Ok cut <-> a <> [] /\ cut = linear_interpolation a q.
Proof.
  unfold percentile. destruct a as [|x a].
  - split; [discriminate | intros [H _]; now contradiction H].
  - split.
    + intros [= <-]. split; [discriminate | reflexivity].
    + intros [_ ->]. reflexivity.
Qed.

Lemma percentile_raise (a : list num) (q : Q) (e : exn) :
  percentile a q = Raise e <-> a = [] /\ e = IndexError.
Proof.
  unfold percentile. destruct a as [|x a].
  - split; [intros [= <-]; auto | intros [_ ->]; reflexivity].
  - split; [discriminate | intros [[=] _]].
Qed.

Lemma cut_off_of_ok (df : list row) (cut : num) :
  cut_off_of df = Ok cut
  <-> df <> []
      /\ cut = linear_interpolation (List.map (@price _ _ _ _ _ _ _) df) 96.
Proof.
  unfold cut_off_of. rewrite percentile_ok.
  destruct df; simpl; split; intros [H1 H2]; split; auto; discriminate.
Qed.

Lemma cut_off_of_raise (df : list row) (e : exn) :
  cut_off_of df = Raise e <-> df = [] /\ e = IndexError.
Proof.
  unfold cut_off_of. rewrite percentile_raise.
  destruct df; simpl; split; intros [H1 H2]; split; auto; discriminate.
Qed.

Lemma price_cut_ok (df out : list row) :
  price_cut df = Ok out
  <-> exists cut, cut_off_of df = Ok cut /\ out = price_at_most cut df.
Proof.
  unfold price_cut. destruct (cut_off_of df) as [cut|e]; simpl.
  - split; [intros [= <-]; eauto | intros (c & [= <-] & ->); reflexivity].
  - split; [discriminate | intros (c & [=] & _)].
Qed.

Lemma price_cut_raise (df : list row) (e : exn) :
  price_cut df = Raise e <-> df = [] /\ e = IndexError.
Proof.
  unfold price_cut. destruct (cut_off_of df) as [cut|e'] eqn:E; simpl.
  - split; [discriminate|]. intros [-> _].
    apply cut_off_of_ok in E. now destruct E.
  - apply cut_off_of_raise in E. destruct E as [-> ->].
    split; [intros [= <-]; auto | intros [_ ->]; reflexivity].
Qed.

Lemma filter_rows_ok (df out : list row) :
  filter_rows df = Ok out
  <-> exists cut, cut_off_of (range_filters df) = Ok cut
                  /\ out = price_at_most cut (range_filters df).
Proof. apply price_cut_ok. Qed.

Lemma filter_rows_raise (df : list row) (e : exn) :
  filter_rows df = Raise e <-> range_filters df = [] /\ e = IndexError.
Proof. apply price_cut_raise. Qed.

Lemma filter_rows_In (df out : list row) (cut : num) (r : row) :
  cut_off_of (range_filters df) = Ok cut ->
  filter_rows df = Ok out ->
  In r out <-> In r df /\ in_range r /\ price_within cut r.
Proof.
  intros Hc H. apply filter_rows_ok in H. destruct H as (cut' & Hc' & ->).
  rewrite Hc in Hc'. injection Hc' as <-.
  rewrite price_at_most_In, range_filters_In. tauto.
Qed.

(** No value of [pkn_space] is missing after the row filters. *)
Lemma filter_rows_pkn_space (df out : list row) :
  filter_rows df = Ok out -> Forall has_pkn_space out.
Proof.
  intros H. apply Forall_forall. intros r Hr.
  pose proof H as H'. apply filter_rows_ok in H'. destruct H' as (cut & Hc & _).
  apply (@filter_rows_In _ _ _ r Hc H) in Hr.
  destruct Hr as (_ & (b & ba & t & p & _ & _ & _ & Hp & _) & _).
  unfold has_pkn_space. rewrite Hp. discriminate.
Qed.

(** Imputation changes nothing in a table without missing [pkn_space]. *)
Lemma impute_without_missing (df : list row) :
  Forall has_pkn_space df -> impute_pkn_space df = df.
Proof.
  intros H. unfold impute_pkn_space.
  generalize (median (List.map (@pkn_space _ _ _ _ _ _ _) df)) as m. intros m.
  induction H as [|r df Hr _ IH]; simpl; [reflexivity|].
  rewrite IH. f_equal.
  destruct r as [ti ad be ba to pk pr]; unfold has_pkn_space in Hr; simpl in *.
  destruct pk; [reflexivity | congruence].
Qed.

Lemma insert_key_not_nil (k : str) (l : list str) : insert_key k l <> [].
Proof.
  destruct l as [|y l]; simpl; [discriminate|].
  destruct (str_compare k y); discriminate.
Qed.

Lemma insert_desc_not_nil (x : str * nat) (l : list (str * nat)) :
  insert_desc x l <> [].
Proof.
  destruct l as [|y l]; simpl; [discriminate|].
  destruct (snd y <=? snd x)%nat; discriminate.
Qed.

(** The frequency table of a table that has a row has a line. *)
Lemma addr_count_not_nil (df : list row) : df <> [] -> addr_count df <> [].
Proof.
  destruct df as [|r df]; [congruence|]. intros _.
  unfold addr_count, crosstab. cbn [List.map unique fold_right].
  pose proof (@insert_key_not_nil (location r)
                (fold_right insert_key [] (List.map location df))) as H.
  destruct (insert_key (location r)
              (fold_right insert_key [] (List.map location df)));
    [congruence|].
  cbn [List.map sort_desc fold_right]. apply insert_desc_not_nil.
Qed.

Lemma rename_count_ok (df : list row) :
  df <> [] -> rename_count (addr_count df) = Ok (addr_count df).
Proof.
  intros H. apply addr_count_not_nil in H.
  destruct (addr_count df); [congruence | reflexivity].
Qed.

(** What the selection returns is the location truncation of the
    filtered rows, of which there is one at least. *)
Lemma select_rows_ok (df out : list row) :
  select_rows df = Ok out
  <-> exists filtered, filter_rows df = Ok filtered
                       /\ filtered <> []
                       /\ out = filter_locations filtered.
Proof.
  unfold select_rows. destruct (filter_rows df) as [filtered|e] eqn:E;
    cbn [bind].
  - cbv zeta.
    rewrite (@impute_without_missing _ (@filter_rows_pkn_space _ _ E)).
    destruct filtered as [|r filtered].
    + split; [discriminate | intros (f & [= <-] & H & _); congruence].
    + rewrite rename_count_ok by discriminate. cbn [bind].
      split.
      * intros [= <-]. eexists. split; [reflexivity|].
        split; [discriminate | reflexivity].
      * intros (f & [= <-] & _ & ->). reflexivity.
  - split; [discriminate | intros (f & [=] & _)].
Qed.

(** The selection raises when the table it reads is empty: at the price
    cut when no row passes the range filters, at the frequency table when
    no row passes the price cut. *)
Lemma select_rows_raise (df : list row) (e : exn) :
  select_rows df = Raise e
  <-> (range_filters df = [] /\ e = IndexError)
      \/ (filter_rows df = Ok [] /\ e = ValueError length_mismatch).
Proof.
  unfold select_rows. destruct (filter_rows df) as [filtered|e'] eqn:E;
    cbn [bind].
  - cbv zeta.
    rewrite (@impute_without_missing _ (@filter_rows_pkn_space _ _ E)).
    destruct filtered as [|r filtered].
    + cbn. split.
      * intros [= <-]. right. auto.
      * intros [[H _]|[_ ->]]; [|reflexivity].
        exfalso. assert (Hr : filter_rows df = Raise IndexError)
          by (apply filter_rows_raise; auto). congruence.
    + rewrite rename_count_ok by discriminate. cbn [bind].
      split; [discriminate|].
      intros [[H _]|[[=] _]].
      exfalso. assert (Hr : filter_rows df = Raise IndexError)
        by (apply filter_rows_raise; auto). congruence.
  - apply filter_rows_raise in E. destruct E as [Er ->].
    split.
    + intros [= <-]. left. auto.
    + intros [[_ ->]|[[=] _]]. reflexivity.
Qed.

(** C10. Median imputation of [pkn_space] is a no-op where it runs: the
    table that reaches it has no missing [pkn_space], and the step
    returns that table unchanged, every value of every column included. *)
Theorem impute_pkn_space_noop (df filtered : list row) :
  filter_rows df = Ok filtered ->
  Forall has_pkn_space filtered
  /\ impute_pkn_space filtered = filtered.
Proof.
  intros H. split.
  - exact (@filter_rows_pkn_space _ _ H).
  - exact (@impute_without_missing _ (@filter_rows_pkn_space _ _ H)).
Qed.

Lemma impute_pkn_space_noop_witness :
  Forall has_pkn_space (firstn 2 three_listings)
  /\ impute_pkn_space (firstn 2 three_listings) = firstn 2 three_listings.
Proof.
  apply (@impute_pkn_space_noop three_listings). vm_compute. reflexivity.
Defined.

(** What [clean_data_n_return_estimator] returns is [select_rows] of the
    converted table. *)
Lemma clean_data_select_rows (is_decimal : char -> bool) (floatify : str -> Q)
      (data : list raw_row) (out : list row) :
  clean_data_n_return_estimator is_decimal floatify data = Ok out ->
  exists cleaned df,
    clean_columns is_decimal (dropna data) = Ok cleaned
    /\ convert_columns floatify cleaned = Ok df
    /\ select_rows (rows df) = Ok out.
Proof.
  unfold clean_data_n_return_estimator, train_rows.
  destruct (clean_columns is_decimal (dropna data)) as [cleaned|]; simpl;
    [|discriminate].
  destruct (convert_columns floatify cleaned) as [df|] eqn:E; simpl;
    [|discriminate].
  destruct (read_columns (text_columns df) (rows df)); simpl; [|discriminate].
  intros H. exists cleaned, df. auto.
Qed.

(** C1. Every record the pipeline selects from a converted table is in
    range ([bed > 1], [1 < bath < 8], [toilet < 8], [2 < pkn_space < 11])
    and is priced at most the 96th percentile of the prices of the rows
    that passed the range filters, a cut-off computed once. *)
Theorem select_rows_invariant (df selected : list row) :
  select_rows df = Ok selected ->
  exists cut,
    percentile (List.map (@price _ _ _ _ _ _ _) (range_filters df)) 96 = Ok cut
    /\ Forall (fun r => in_range r /\ price_within cut r) selected.
Proof.
  intros H. apply select_rows_ok in H. destruct H as (filtered & Hf & _ & ->).
  pose proof Hf as Hf'. apply filter_rows_ok in Hf'.
  destruct Hf' as (cut & Hc & _).
  exists cut. split; [exact Hc|].
  apply Forall_forall. intros r Hr.
  unfold filter_locations in Hr.
  apply filter_In in Hr. destruct Hr as [Hr _].
  apply (@filter_rows_In _ _ _ r Hc Hf) in Hr. tauto.
Qed.

Lemma select_rows_invariant_witness :
  exists cut,
    percentile (List.map (@price _ _ _ _ _ _ _) (range_filters three_listings)) 96
    = Ok cut
    /\ Forall (fun r => in_range r /\ price_within cut r)
              (firstn 2 three_listings).
Proof.
  apply (@select_rows_invariant three_listings). vm_compute. reflexivity.
Defined.

(* ================================================================== *)
(** * Re-applying the row filters *)
(* ================================================================== *)

Lemma range_filters_idempotent (df : list row) :
  range_filters (range_filters df) = range_filters df.
Proof. apply range_filters_fixpoint, range_filters_in_range. Qed.

Lemma filter_rows_in_range (df out : list row) :
  filter_rows df = Ok out -> Forall in_range out.
Proof.
  intros H. apply Forall_forall. intros r Hr.
  pose proof H as H'. apply filter_rows_ok in H'. destruct H' as (cut & Hc & _).
  apply (@filter_rows_In _ _ _ r Hc H) in Hr. tauto.
Qed.

(** C8, as stated, fails: of three in-range listings priced 1, 2 and 3
    the first pass keeps the prices 1 and 2 (cut-off 2.92), and a second
    pass, whose cut-off is 1.96, keeps the price 1 only. *)
Lemma filter_rows_not_idempotent :
  filter_rows three_listings = Ok (firstn 2 three_listings)
  /\ filter_rows (firstn 2 three_listings) = Ok (firstn 1 three_listings)
  /\ firstn 1 three_listings <> firstn 2 three_listings.
Proof.
  split; [vm_compute; reflexivity|].
  split; [vm_compute; reflexivity|].
  discriminate.
Qed.

(** C8, amended. The range filters are idempotent, and so is the price
    cut for a fixed cut-off; a second pass of the whole stage only
    recomputes the cut-off over the survivors, so it returns a part of
    what the first pass returned. *)
Theorem filter_rows_twice (df once : list row) :
  range_filters (range_filters df) = range_filters df
  /\ (forall cut, price_at_most cut (price_at_most cut df) = price_at_most cut df)
  /\ (filter_rows df = Ok once ->
      filter_rows once
      = (cut_off <- cut_off_of once ;; Ok (price_at_most cut_off once))
      /\ forall twice, filter_rows once = Ok twice -> incl twice once).
Proof.
  split; [apply range_filters_idempotent|].
  split; [intros cut; apply filter_idempotent|].
  intros H.
  assert (Hfix : range_filters once = once)
    by apply range_filters_fixpoint, (@filter_rows_in_range _ _ H).
  split.
  - unfold filter_rows, price_cut. now rewrite Hfix.
  - intros twice H2. apply filter_rows_ok in H2.
    destruct H2 as (cut & _ & ->). rewrite Hfix.
    intros r Hr. apply price_at_most_In in Hr. tauto.
Qed.

(* ================================================================== *)
(** * Frequency table and location truncation *)
(* ================================================================== *)

Lemma str_compare_eq (a b : str) : str_compare a b = Eq <-> a = b.
Proof.
  revert b; induction a as [|x a IH]; intros [|y b]; simpl;
    try (split; [discriminate | discriminate]); try tauto.
  destruct (N.compare_spec x y) as [->|H|H].
  - rewrite IH. split; [intros ->; reflexivity | intros [= ->]; reflexivity].
  - split; [discriminate | intros [= -> _]; lia].
  - split; [discriminate | intros [= -> _]; lia].
Qed.

Lemma str_compare_antisym (a b : str) :
  str_compare b a = CompOpp (str_compare a b).
Proof.
  revert b; induction a as [|x a IH]; intros [|y b]; simpl; try reflexivity.
  rewrite (N.compare_antisym x y).
  destruct (N.compare x y); simpl; auto.
Qed.

Lemma str_lt_trans (a b c : str) : str_lt a b -> str_lt b c -> str_lt a c.
Proof.
  unfold str_lt. revert b c; induction a as [|x a IH]; intros [|y b] [|z c];
    simpl; try discriminate; try reflexivity.
  destruct (N.compare_spec x y) as [->|Hxy|Hxy]; try discriminate.
  - destruct (N.compare z y) eqn:E; rewrite (N.compare_antisym z y), E; simpl;
      try discriminate; eauto.
  - intros _. destruct (N.compare_spec y z) as [->|Hyz|Hyz]; try discriminate.
    + intros _. apply N.compare_lt_iff in Hxy. now rewrite Hxy.
    + intros _. assert (H : (x < z)%N) by lia.
      apply N.compare_lt_iff in H. now rewrite H.
Qed.

Lemma str_lt_irrefl (a : str) : ~ str_lt a a.
Proof.
  unfold str_lt. intros H.
  assert (E : str_compare a a = Eq) by now apply str_compare_eq.
  congruence.
Qed.

Lemma insert_key_In (k x : str) (l : list str) :
  In x (insert_key k l) <-> x = k \/ In x l.
Proof.
  induction l as [|y l IH]; simpl; [intuition congruence|].
  destruct (str_compare k y) eqn:E; simpl.
  - apply str_compare_eq in E. subst y. intuition congruence.
  - intuition congruence.
  - rewrite IH. intuition congruence.
Qed.

Lemma insert_key_sorted (k : str) (l : list str) :
  StronglySorted str_lt l -> StronglySorted str_lt (insert_key k l).
Proof.
  induction 1 as [|y l Hs IH Hy]; simpl; [repeat constructor|].
  destruct (str_compare k y) eqn:E.
  - now constructor.
  - constructor; [now constructor|].
    constructor; [exact E|].
    eapply Forall_impl; [|exact Hy]. intros z Hz. eapply str_lt_trans; eauto.
  - constructor; [exact IH|].
    apply Forall_forall. intros z Hz. apply insert_key_In in Hz.
    destruct Hz as [->|Hz].
    + unfold str_lt. rewrite str_compare_antisym, E. reflexivity.
    + rewrite Forall_forall in Hy. now apply Hy.
Qed.

Lemma unique_In (x : str) (l : list str) : In x (unique l) <-> In x l.
Proof.
  induction l as [|k l IH]; simpl; [tauto|].
  rewrite insert_key_In, IH. intuition congruence.
Qed.

Lemma unique_sorted (l : list str) : StronglySorted str_lt (unique l).
Proof.
  induction l as [|k l IH]; simpl; [constructor|].
  now apply insert_key_sorted.
Qed.

Lemma unique_NoDup (l : list str) : NoDup (unique l).
Proof.
  generalize (unique_sorted l). generalize (unique l) as u.
  induction 1 as [|y u Hs IH Hy]; constructor; [|exact IH].
  intros Hin. rewrite Forall_forall in Hy.
  exact (str_lt_irrefl (Hy _ Hin)).
Qed.

Lemma crosstab_keys (locs : list str) : List.map fst (crosstab locs) = unique locs.
Proof.
  unfold crosstab. rewrite map_map. simpl. apply map_id.
Qed.

Lemma crosstab_In (locs : list str) (k : str) (c : nat) :
  In (k, c) (crosstab locs) <-> In k locs /\ c = count k locs.
Proof.
  unfold crosstab. rewrite in_map_iff. split.
  - intros (k' & [= <- <-] & Hk). split; [exact (proj1 (unique_In _ _) Hk) | reflexivity].
  - intros [Hk ->]. exists k. split; [reflexivity | exact (proj2 (unique_In _ _) Hk)].
Qed.

Lemma insert_desc_perm (x : str * nat) (l : list (str * nat)) :
  Permutation (insert_desc x l) (x :: l).
Proof.
  induction l as [|y l IH]; simpl; [reflexivity|].
  destruct (snd y <=? snd x)%nat; [reflexivity|].
  rewrite IH. apply perm_swap.
Qed.

Lemma sort_desc_perm (l : list (str * nat)) : Permutation (sort_desc l) l.
Proof.
  induction l as [|x l IH]; simpl; [reflexivity|].
  rewrite insert_desc_perm. now constructor.
Qed.

Lemma insert_desc_sorted (x : str * nat) (l : list (str * nat)) :
  StronglySorted desc_by_count l -> StronglySorted desc_by_count (insert_desc x l).
Proof.
  induction 1 as [|y l Hs IH Hy]; simpl; [repeat constructor|].
  destruct (Nat.leb_spec (snd y) (snd x)) as [H|H].
  - constructor; [now constructor|].
    constructor; [exact H|].
    eapply Forall_impl; [|exact Hy]. unfold desc_by_count. intros z Hz. lia.
  - constructor; [exact IH|].
    apply Forall_forall. intros z Hz.
    apply (Permutation_in _ (insert_desc_perm x l)) in Hz.
    destruct Hz as [<-|Hz].
    + unfold desc_by_count. lia.
    + rewrite Forall_forall in Hy. now apply Hy.
Qed.

Lemma sort_desc_sorted (l : list (str * nat)) :
  StronglySorted desc_by_count (sort_desc l).
Proof.
  induction l as [|x l IH]; simpl; [constructor|].
  now apply insert_desc_sorted.
Qed.

Lemma isin_In (x : str) (l : list str) : isin x l = true <-> In x l.
Proof.
  unfold isin. rewrite existsb_exists. split.
  - intros (y & Hy & E). apply str_eqb_eq in E. now subst.
  - intros H. exists x. split; [exact H | now apply str_eqb_eq].
Qed.

(** C2. The frequency table has one line per distinct location with
    the number of rows that carry it; [addr_count] is that table sorted
    in descending order of the count; [locations] are the keys of its
    first 15 lines; and the truncation keeps a row exactly when its
    location is one of them, removing every other row. *)
Theorem location_truncation (df : list row) :
  let locs := List.map location df in
  (forall k c, In (k, c) (crosstab locs) <-> In k locs /\ c = count k locs)
  /\ NoDup (List.map fst (crosstab locs))
  /\ Permutation (addr_count df) (crosstab locs)
  /\ StronglySorted desc_by_count (addr_count df)
  /\ locations df = List.map fst (firstn 15 (addr_count df))
  /\ (forall r, In r (filter_locations df)
                <-> In r df /\ In (location r) (locations df)).
Proof.
  intros locs.
  split; [intros k c; apply crosstab_In|].
  split; [rewrite crosstab_keys; apply unique_NoDup|].
  split; [apply sort_desc_perm|].
  split; [apply sort_desc_sorted|].
  split; [reflexivity|].
  intros r. unfold filter_locations. rewrite filter_In, isin_In. tauto.
Qed.

(* ================================================================== *)
(** * The predictor *)
(* ================================================================== *)

Lemma index_of_None (x : str) (l : list str) :
  index_of x l = None <-> ~ In x l.
Proof.
  induction l as [|y l IH]; simpl; [tauto|].
  destruct (str_eqb x y) eqn:E.
  - apply str_eqb_eq in E. subst. split; [discriminate | intros H; exfalso; auto].
  - assert (x <> y) by (intros ->; rewrite (proj2 (str_eqb_eq y y) eq_refl) in E; discriminate).
    destruct (index_of x l); simpl.
    + split; [discriminate|]. intros H'. exfalso. apply H'. right.
      destruct (in_dec str_eq_dec x l) as [Hin|Hout]; [exact Hin|].
      now apply IH in Hout.
    + split; [|reflexivity]. intros _ [Hy|Hin]; [congruence|].
      now apply (proj1 IH).
Qed.

(** C5, as stated, fails: a location that is not among the fitted
    labels, because it ends with a NUL character, is read from the string
    array without that character, is encoded as the label it then equals,
    and an estimate is returned. *)
Lemma unseen_location_encoded_as_seen :
  ~ In (form_location lekki_nul_form) (classes_ (le_location sample_estimator))
  /\ In (py "Lekki") (classes_ (le_location sample_estimator))
  /\ predict sample_estimator lekki_nul_form = Ok (act_price 0).
Proof.
  split; [vm_compute; intros [E|[E|[]]]; discriminate E|].
  split; [vm_compute; auto|].
  reflexivity.
Qed.

(** C5, amended. A request whose location, as the string array holds it
    (without trailing NUL characters), is not among the classes of the
    fitted location encoder makes [predict] raise the encoder's
    unseen-label error, naming that location; no estimate is returned and
    the regressor is not consulted. *)
Theorem predict_unseen_location (est : estimator) (f : form) :
  ~ In (element (form_location f)) (classes_ (le_location est)) ->
  predict est f
  = Raise (ValueError (previously_unseen_labels (element (form_location f)))).
Proof.
  intros H. unfold predict, transform. simpl.
  apply index_of_None in H. now rewrite H.
Qed.

Lemma predict_unseen_location_witness :
  ~ In (element (form_location sample_form))
       (classes_ (le_location sample_estimator))
  /\ predict sample_estimator sample_form
     = Raise (ValueError (previously_unseen_labels (py "Yaba"))).
Proof.
  assert (H : ~ In (element (form_location sample_form))
                (classes_ (le_location sample_estimator))).
  { vm_compute. intros [E|[E|[]]]; discriminate E. }
  split; [exact H | exact (predict_unseen_location sample_estimator sample_form H)].
Defined.

Lemma round0_IZR (z : Z) : round0 (IZR z) = IZR z.
Proof.
  unfold round0.
  destruct (Int_part_frac_part_spec (IZR z) z 0%R) as [Hi Hf]; [lra | lra |].
  rewrite <- Hi, <- Hf.
  destruct (Rlt_dec 0 (1 / 2)) as [_|H]; [reflexivity | lra].
Qed.

(** C4, on the code. For every positive whole price [p], converting the
    training transform [ln (p + 1)] of [p] the way [predict] does gives
    [p + 2]: the conversion adds 1 where the inverse of the transform
    subtracts 1. *)
Theorem act_price_of_log_price (p : Z) :
  (0 < p)%Z -> act_price (log_price (IZR p)) = IZR (p + 2).
Proof.
  intros Hp. unfold act_price, log_price.
  assert (H1 : (0 < IZR p + 1)%R).
  { apply IZR_lt in Hp. lra. }
  rewrite (exp_ln _ H1).
  replace (IZR p + 1 + 1)%R with (IZR (p + 2)) by (rewrite plus_IZR; lra).
  apply round0_IZR.
Qed.

Lemma act_price_of_log_price_witness :
  (0 < 1)%Z /\ act_price (log_price (IZR 1)) = IZR 3.
Proof.
  split; [reflexivity | exact (@act_price_of_log_price 1%Z eq_refl)].
Defined.

(* ================================================================== *)
(** * Exceptions in the column loops *)
(* ================================================================== *)

Lemma same_outcome_refl (A : Type) (m : result A) : same_outcome m m.
Proof. destruct m; simpl; auto. Qed.

Lemma same_outcome_trans (A : Type) (m1 m2 m3 : result A) :
  same_outcome m1 m2 -> same_outcome m2 m3 -> same_outcome m1 m3.
Proof. destruct m1, m2, m3; simpl; intros; subst; auto; contradiction. Qed.

Lemma same_outcome_bind (A B : Type) (m1 m2 : result A) (k1 k2 : A -> result B) :
  same_outcome m1 m2 ->
  (forall a, same_outcome (k1 a) (k2 a)) ->
  same_outcome (bind m1 k1) (bind m2 k2).
Proof.
  destruct m1, m2; simpl; intros H Hk; try contradiction; auto.
  subst. apply Hk.
Qed.

(** Two column passes in a row end like one pass of the composed update. *)
Lemma mapM_fuse (A B C : Type) (f : A -> result B) (g : B -> result C)
      (l : list A) :
  same_outcome (bind (mapM f l) (mapM g)) (mapM (fun a => bind (f a) g) l).
Proof.
  induction l as [|a l IH]; simpl; [reflexivity|].
  destruct (f a) as [b|e]; simpl; [|exact I].
  destruct (mapM f l) as [bs|e]; simpl in *.
  - destruct (g b) as [c|e]; simpl; [|exact I].
    destruct (mapM g bs), (mapM (fun a0 => bind (f a0) g) l);
      simpl in *; try contradiction; subst; auto.
  - destruct (g b) as [c|e']; simpl; [|exact I].
    destruct (mapM (fun a0 => bind (f a0) g) l); simpl in *; auto.
Qed.

Lemma mapM_all_ok (A B : Type) (f : A -> result B) (g : A -> B) (l : list A) :
  Forall (fun a => f a = Ok (g a)) l -> mapM f l = Ok (List.map g l).
Proof.
  induction 1 as [|a l Ha _ IH]; simpl; [reflexivity|].
  now rewrite Ha, IH.
Qed.

Lemma mapM_raise (A B : Type) (f : A -> result B) (l : list A) (e : exn) :
  mapM f l = Raise e -> exists a, In a l /\ f a = Raise e.
Proof.
  induction l as [|a l IH]; simpl; [discriminate|].
  destruct (f a) as [b|e'] eqn:Ea; simpl.
  - destruct (mapM f l) as [bs|e']; simpl; [discriminate|].
    intros [= ->]. destruct (IH eq_refl) as (a' & Hin & Ha'). eauto.
  - intros [= ->]. eauto.
Qed.

Lemma mapM_some_raise (A B : Type) (f : A -> result B) (l : list A) (a : A) (e : exn) :
  In a l -> f a = Raise e -> exists e', mapM f l = Raise e'.
Proof.
  induction l as [|x l IH]; simpl; [contradiction|].
  intros [->|Hin] Ha.
  - rewrite Ha. simpl. eauto.
  - destruct (f x); simpl; [|eauto].
    destruct (IH Hin Ha) as [e' ->]. simpl. eauto.
Qed.

Lemma mapM_app (A B : Type) (f : A -> result B) (l1 l2 : list A) :
  mapM f (l1 ++ l2)
  = bind (mapM f l1) (fun x => bind (mapM f l2) (fun y => Ok (x ++ y))).
Proof.
  induction l1 as [|a l1 IH]; simpl.
  - destruct (mapM f l2); reflexivity.
  - destruct (f a); simpl; [|reflexivity].
    rewrite IH. destruct (mapM f l1); simpl; [|reflexivity].
    destruct (mapM f l2); reflexivity.
Qed.

(** The cleaning loop ends like its row-wise reading. *)
Lemma clean_columns_by_row (is_decimal : char -> bool) (df : list raw_row) :
  same_outcome (clean_columns is_decimal df) (mapM (clean_row is_decimal) df).
Proof.
  unfold clean_columns, clean_row, apply_title, apply_address, apply_bed,
    apply_bath, apply_toilet, apply_pkn_space, apply_price.
  eapply same_outcome_trans; [|apply mapM_fuse].
  apply same_outcome_bind; [apply same_outcome_refl|]. intros d1.
  eapply same_outcome_trans; [|apply mapM_fuse].
  apply same_outcome_bind; [apply same_outcome_refl|]. intros d2.
  eapply same_outcome_trans; [|apply mapM_fuse].
  apply same_outcome_bind; [apply same_outcome_refl|]. intros d3.
  eapply same_outcome_trans; [|apply mapM_fuse].
  apply same_outcome_bind; [apply same_outcome_refl|]. intros d4.
  eapply same_outcome_trans; [|apply mapM_fuse].
  apply same_outcome_bind; [apply same_outcome_refl|]. intros d5.
  apply mapM_fuse.
Qed.

(* ================================================================== *)
(** * The cleaning stage and cleaner failures *)
(* ================================================================== *)

Lemma clean_row_text (is_decimal : char -> bool) (r : raw_row) :
  all_text r = true -> clean_row is_decimal r = Ok (cleaned_row is_decimal r).
Proof.
  destruct r as [[ti| |] [ad| |] [b| |] [ba| |] [t| |] [p| |] [pr| |]];
    try discriminate.
  reflexivity.
Qed.

Lemma clean_row_not_text (is_decimal : char -> bool) (r : raw_row) :
  all_text r = false -> exists e, clean_row is_decimal r = Raise e.
Proof.
  destruct r as [ti ad b ba t p pr].
  unfold all_text, clean_row, on_title, on_address, on_bed, on_bath,
    on_toilet, on_pkn_space, on_price.
  destruct ti; [|simpl; eauto..].
  destruct ad; [|simpl; eauto..].
  destruct b; [|simpl; eauto..].
  destruct ba; [|simpl; eauto..].
  destruct t; [|simpl; eauto..].
  destruct p; [|simpl; eauto..].
  destruct pr; [|simpl; eauto..].
  discriminate.
Qed.

(** C6, as stated, fails: a [bed] cell that is a number makes
    [clean_text] raise, and the exception ends the cleaning loop and the
    run; nothing is substituted for the field. *)
Lemma cleaner_failure_aborts :
  clean_columns is_ascii_digit (dropna table_with_numeric_bed) = Raise TypeError
  /\ clean_data_n_return_estimator is_ascii_digit correctly_rounded
       table_with_numeric_bed
     = Raise TypeError.
Proof. split; reflexivity. Qed.

(** C6, amended. A cleaner call cannot fail on a text field: when every
    cell of the table is text, the cleaning loop returns the table with
    each field cleaned by its cleaner, one row per input row.  A cleaner
    call fails only on a cell that is not text, and then the exception
    ends the loop: no field is replaced by a missing value. *)
Theorem clean_columns_text_or_raise (is_decimal : char -> bool) (df : list raw_row) :
  if forallb all_text df
  then clean_columns is_decimal df = Ok (List.map (cleaned_row is_decimal) df)
  else exists e, clean_columns is_decimal df = Raise e.
Proof.
  pose proof (clean_columns_by_row is_decimal df) as H.
  destruct (forallb all_text df) eqn:E.
  - rewrite forallb_forall in E.
    rewrite (@mapM_all_ok _ _ (clean_row is_decimal) (cleaned_row is_decimal)) in H.
    + destruct (clean_columns is_decimal df); simpl in H; [now subst | contradiction].
    + apply Forall_forall. intros r Hr. apply clean_row_text. now apply E.
  - assert (Hex : exists r, In r df /\ all_text r = false).
    { clear H. induction df as [|r df IH]; simpl in E; [discriminate|].
      destruct (all_text r) eqn:Er.
      - destruct (IH E) as (r' & Hin & Hr'). exists r'. simpl. auto.
      - exists r. simpl. auto. }
    destruct Hex as (r & Hin & Hr).
    destruct (clean_row_not_text is_decimal r Hr) as [e He].
    destruct (mapM_some_raise _ _ _ Hin He) as [e' He'].
    rewrite He' in H.
    destruct (clean_columns is_decimal df) as [out|e'']; simpl in H;
      [contradiction | eauto].
Qed.

(* ================================================================== *)
(** * Numeric conversion and the rows it loses *)
(* ================================================================== *)

Lemma digits_value_snoc (s : str) (c : char) :
  digits_value (s ++ [c]) = (10 * digits_value s + (Z.of_N c - 48))%Z.
Proof. unfold digits_value. now rewrite fold_left_app. Qed.

(** A run of [n] digits writes a number below [10 ^ n]. *)
Lemma digits_value_bound (s : str) :
  forallb is_ascii_digit s = true ->
  (0 <= digits_value s < 10 ^ Z.of_nat (length s))%Z.
Proof.
  induction s as [|c s IH] using rev_ind; intros H.
  - cbn. lia.
  - rewrite forallb_app in H. apply andb_true_iff in H. destruct H as [Hs Hc].
    cbn [forallb] in Hc. rewrite andb_true_r in Hc.
    unfold is_ascii_digit in Hc. apply andb_true_iff in Hc.
    destruct Hc as [H1 H2]. apply N.leb_le in H1, H2.
    specialize (IH Hs). rewrite digits_value_snoc, length_app. cbn [length].
    rewrite Nat.add_1_r, Nat2Z.inj_succ, Z.pow_succ_r by lia. lia.
Qed.

Lemma numeral_value_below (s : str) (n : nat) :
  numeral s -> (length s <= n)%nat ->
  (0 <= digits_value s < 10 ^ Z.of_nat n)%Z.
Proof.
  intros [->|H] Hl.
  - cbn. pose proof (Z.pow_pos_nonneg 10 (Z.of_nat n)). lia.
  - pose proof (digits_value_bound s H) as [H0 H1].
    split; [exact H0|].
    eapply Z.lt_le_trans; [exact H1|]. apply Z.pow_le_mono_r; lia.
Qed.

(** At most 18 digits write a signed 64-bit integer. *)
Lemma numeral_18_int64 (s : str) :
  numeral s -> (length s <= 18)%nat -> (0 <= digits_value s <= int64_max)%Z.
Proof.
  intros H Hl. pose proof (numeral_value_below H Hl) as [H0 H1].
  change (10 ^ Z.of_nat 18)%Z with 1000000000000000000%Z in H1.
  unfold int64_max. lia.
Qed.

(** At most 15 digits write a number below [2 ^ 53]. *)
Lemma numeral_15_float (s : str) :
  numeral s -> (length s <= 15)%nat -> (0 <= digits_value s < 2 ^ 53)%Z.
Proof.
  intros H Hl. pose proof (numeral_value_below H Hl) as [H0 H1].
  change (10 ^ Z.of_nat 15)%Z with 1000000000000000%Z in H1.
  change (2 ^ 53)%Z with 9007199254740992%Z. lia.
Qed.

Lemma correctly_rounded_exact : exact_to_15_digits correctly_rounded.
Proof.
  intros s Hd Hl. unfold correctly_rounded, nearest_float.
  assert (H : (0 <= digits_value s < 2 ^ 53)%Z)
    by (apply numeral_15_float; [now right | exact Hl]).
  destruct (Z.ltb_spec (digits_value s) (2 ^ 53)); [reflexivity | lia].
Qed.

Lemma parse_integer_ok (s : str) (v : option Z) :
  parse_integer s = Ok v ->
  v = integer_of s /\ numeral s /\ (digits_value s <= uint64_max)%Z.
Proof.
  unfold parse_integer, numeral. destruct s as [|c s].
  - intros [= <-]. repeat split; auto. discriminate.
  - destruct (forallb is_ascii_digit (c :: s)); [|discriminate].
    destruct (Z.leb_spec (digits_value (c :: s)) uint64_max); [|discriminate].
    intros [= <-]. auto.
Qed.

Lemma parse_integer_numeral (s : str) :
  numeral s -> (digits_value s <= uint64_max)%Z ->
  parse_integer s = Ok (integer_of s).
Proof.
  intros Hn Hv. unfold parse_integer. destruct s as [|c s]; [reflexivity|].
  destruct Hn as [Hn|Hn]; [discriminate|]. rewrite Hn.
  destruct (Z.leb_spec (digits_value (c :: s)) uint64_max); [reflexivity | lia].
Qed.

Lemma mapM_parse_ok (col : list str) (ints : list (option Z)) :
  mapM parse_integer col = Ok ints ->
  ints = List.map integer_of col
  /\ Forall (fun s => numeral s /\ (digits_value s <= uint64_max)%Z) col.
Proof.
  revert ints. induction col as [|s col IH]; intros ints; simpl.
  - intros [= <-]. auto.
  - destruct (parse_integer s) as [v|] eqn:E; simpl; [|discriminate].
    destruct (mapM parse_integer col) as [vs|]; simpl; [|discriminate].
    intros [= <-]. apply parse_integer_ok in E. destruct E as (-> & E).
    destruct (IH vs eq_refl) as [-> H]. auto.
Qed.

Lemma existsb_false (A : Type) (f : A -> bool) (l : list A) :
  Forall (fun a => f a = false) l -> existsb f l = false.
Proof.
  induction 1 as [|a l Ha _ IH]; simpl; [reflexivity|]. now rewrite Ha, IH.
Qed.

Lemma no_uint (col : list str) :
  Forall (fun s => (digits_value s <= int64_max)%Z) col ->
  existsb is_uint (List.map integer_of col) = false.
Proof.
  intros H. apply existsb_false. apply Forall_map.
  eapply Forall_impl; [|exact H]. intros s Hs.
  destruct s as [|c s]; [reflexivity|]. cbn [integer_of is_uint].
  apply Z.ltb_ge. exact Hs.
Qed.

Lemma number_of_None (s : str) : number_of s = None <-> s = [].
Proof. destruct s; simpl; split; (reflexivity || discriminate). Qed.

(** A column of integers that fit in 64 signed bits is converted to
    numbers, with NaN for the empty strings and for no other, and to the
    integers themselves when no string is empty. *)
Lemma to_numeric_int64 (floatify : str -> Q) (col : list str) :
  Forall (fun s => numeral s /\ (digits_value s <= int64_max)%Z) col ->
  exists value : str -> num,
    to_numeric floatify col = Ok (Numbers (List.map value col))
    /\ (forall s, value s = None <-> s = [])
    /\ (~ In [] col -> List.map value col = List.map number_of col).
Proof.
  intros H.
  assert (Hp : mapM parse_integer col = Ok (List.map integer_of col)).
  { apply mapM_all_ok. eapply Forall_impl; [|exact H].
    intros s [Hn Hv]. apply parse_integer_numeral; [exact Hn|].
    unfold int64_max in Hv. unfold uint64_max. lia. }
  assert (Hu : existsb is_uint (List.map integer_of col) = false).
  { apply no_uint. eapply Forall_impl; [|exact H]. now intros s [_ Hv]. }
  unfold to_numeric. rewrite Hp. cbn [bind]. rewrite Hu.
  destruct (existsb is_missing (List.map integer_of col)) eqn:Em.
  - exists (fun s => match s with [] => None | _ => Some (floatify s) end).
    split; [reflexivity|]. split.
    + intros s. destruct s; split; (reflexivity || discriminate).
    + intros Hno. exfalso. apply Hno.
      apply existsb_exists in Em. destruct Em as (v & Hv & Ev).
      apply in_map_iff in Hv. destruct Hv as (s & <- & Hs).
      destruct s; [exact Hs | discriminate Ev].
  - exists number_of. split; [now rewrite map_map|].
    split; [apply number_of_None | reflexivity].
Qed.

(** With a float parser that is exact on 15 digits, a column of strings
    of at most 15 characters is converted to the numbers its elements
    write, once all of them are parsed. *)
Lemma to_numeric_short (floatify : str -> Q) (col : list str) :
  exact_to_15_digits floatify ->
  Forall (fun s => (length s <= 15)%nat) col ->
  to_numeric floatify col
  = (_ <- parses col ;; Ok (Numbers (List.map number_of col))).
Proof.
  intros Hx Hs. unfold to_numeric, parses.
  destruct (mapM parse_integer col) as [ints|e] eqn:E; cbn [bind];
    [|reflexivity].
  apply mapM_parse_ok in E. destruct E as [-> Hn].
  assert (Hu : existsb is_uint (List.map integer_of col) = false).
  { apply no_uint. rewrite Forall_forall in *. intros s Hin.
    destruct (Hn s Hin) as [Hnum _].
    pose proof (@numeral_15_float s Hnum (Hs s Hin)) as Hv.
    change (2 ^ 53)%Z with 9007199254740992%Z in Hv. unfold int64_max. lia. }
  rewrite Hu.
  destruct (existsb is_missing (List.map integer_of col)).
  - do 2 f_equal. apply map_ext_in. intros s Hin.
    rewrite Forall_forall in Hn, Hs.
    destruct s as [|c s]; [reflexivity|].
    destruct (Hn _ Hin) as [[Hnum|Hnum] _]; [discriminate|].
    rewrite (Hx _ Hnum (Hs _ Hin)). reflexivity.
  - now rewrite map_map.
Qed.

Lemma assign_map (df : list text_row) (fb fba ft fp fpr : str -> num) :
  assign df (List.map fb (List.map (@bed _ _ _ _ _ _ _) df))
            (List.map fba (List.map (@bath _ _ _ _ _ _ _) df))
            (List.map ft (List.map (@toilet _ _ _ _ _ _ _) df))
            (List.map fp (List.map (@pkn_space _ _ _ _ _ _ _) df))
            (List.map fpr (List.map (@price _ _ _ _ _ _ _) df))
  = List.map (fun r => mkRow (title r) (address r) (fb (bed r)) (fba (bath r))
                         (ft (toilet r)) (fp (pkn_space r)) (fpr (price r)))
             df.
Proof.
  unfold assign. induction df as [|r df IH]; [reflexivity|].
  cbn [List.map combine]. f_equal. exact IH.
Qed.

Lemma compare_numeric (name : column) (df : list row) :
  compare [] name df = Ok tt.
Proof. destruct df; reflexivity. Qed.

(** A table whose columns are all numeric is read without exception. *)
Lemma read_columns_numeric (df : list row) : read_columns [] df = Ok tt.
Proof.
  unfold read_columns. now rewrite !compare_numeric.
Qed.

Lemma short_columns (df : list text_row) :
  Forall short_numbers df ->
  Forall (fun s => (length s <= 15)%nat) (List.map (@bed _ _ _ _ _ _ _) df)
  /\ Forall (fun s => (length s <= 15)%nat) (List.map (@bath _ _ _ _ _ _ _) df)
  /\ Forall (fun s => (length s <= 15)%nat) (List.map (@toilet _ _ _ _ _ _ _) df)
  /\ Forall (fun s => (length s <= 15)%nat)
            (List.map (@pkn_space _ _ _ _ _ _ _) df)
  /\ Forall (fun s => (length s <= 15)%nat) (List.map (@price _ _ _ _ _ _ _) df).
Proof.
  intros H. repeat split; apply Forall_map; (eapply Forall_impl; [|exact H]);
    intros r (H1 & H2 & H3 & H4 & H5); assumption.
Qed.

(** On a table whose numeric fields have at most 15 characters, the
    conversion loop parses the five columns in turn and, when nothing is
    refused, returns every row with its fields read as numbers and no
    column left as text. *)
Lemma convert_columns_short (floatify : str -> Q) (df : list text_row) :
  exact_to_15_digits floatify -> Forall short_numbers df ->
  convert_columns floatify df
  = (_ <- parse_columns df ;;
     Ok {| rows := List.map numbers_row df; text_columns := [] |}).
Proof.
  intros Hx Hs. apply short_columns in Hs.
  destruct Hs as (H1 & H2 & H3 & H4 & H5).
  unfold convert_columns, parse_columns. cbv beta zeta.
  unfold text_row in *.
  rewrite (to_numeric_short Hx H1), (to_numeric_short Hx H2),
    (to_numeric_short Hx H3), (to_numeric_short Hx H4),
    (to_numeric_short Hx H5).
  destruct (parses (List.map (@bed _ _ _ _ _ _ _) df)) as [[]|]; cbn [bind];
    [|reflexivity].
  destruct (parses (List.map (@bath _ _ _ _ _ _ _) df)) as [[]|]; cbn [bind];
    [|reflexivity].
  destruct (parses (List.map (@toilet _ _ _ _ _ _ _) df)) as [[]|]; cbn [bind];
    [|reflexivity].
  destruct (parses (List.map (@pkn_space _ _ _ _ _ _ _) df)) as [[]|]; cbn [bind];
    [|reflexivity].
  destruct (parses (List.map (@price _ _ _ _ _ _ _) df)) as [[]|]; cbn [bind];
    [|reflexivity].
  cbn [cells still_text app]. f_equal. f_equal. apply assign_map.
Qed.

Lemma train_rows_short (floatify : str -> Q) (df : list text_row) :
  exact_to_15_digits floatify -> Forall short_numbers df ->
  train_rows floatify df
  = (_ <- parse_columns df ;; select_rows (List.map numbers_row df)).
Proof.
  intros Hx Hs. unfold train_rows. rewrite (convert_columns_short Hx Hs).
  destruct (parse_columns df) as [[]|]; cbn [bind]; [|reflexivity].
  cbn [rows text_columns]. now rewrite read_columns_numeric.
Qed.

(** An element that is parsed does not change whether its column is. *)
Lemma parses_insert (c1 c2 : list str) (x : str) (v : option Z) :
  parse_integer x = Ok v -> parses (c1 ++ x :: c2) = parses (c1 ++ c2).
Proof.
  intros H. unfold parses. rewrite !mapM_app. cbn [mapM]. rewrite H.
  cbn [bind].
  destruct (mapM parse_integer c1); cbn [bind]; [|reflexivity].
  destruct (mapM parse_integer c2); reflexivity.
Qed.

Lemma range_filters_cons (r : row) (l : list row) :
  range_filters (r :: l)
  = if passes_ranges r then r :: range_filters l else range_filters l.
Proof.
  unfold range_filters, filter_pkn_space, filter_bath, filter_bed_toilet,
    passes_ranges.
  simpl.
  destruct (num_gt (bed r) 1 && num_lt (toilet r) 8); simpl; [|reflexivity].
  destruct (num_gt (bath r) 1 && num_lt (bath r) 8); simpl; [|reflexivity].
  destruct (num_gt (pkn_space r) 2 && num_lt (pkn_space r) 11); reflexivity.
Qed.

Lemma range_filters_app (l1 l2 : list row) :
  range_filters (l1 ++ l2) = range_filters l1 ++ range_filters l2.
Proof.
  induction l1 as [|r l1 IH]; [reflexivity|].
  simpl. rewrite !range_filters_cons, IH.
  destruct (passes_ranges r); reflexivity.
Qed.

(** A row with a missing count passes no range filter. *)
Lemma missing_count_out_of_range (r : row) :
  bed r = None \/ bath r = None \/ toilet r = None \/ pkn_space r = None ->
  passes_ranges r = false.
Proof.
  unfold passes_ranges.
  intros [H|[H|[H|H]]]; rewrite H; simpl;
    rewrite ?andb_false_r; reflexivity.
Qed.

(** A missing price makes the cut-off NaN, and the price cut empty. *)
Lemma missing_price_drops_all (df : list row) :
  In None (List.map (@price _ _ _ _ _ _ _) df) -> price_cut df = Ok [].
Proof.
  intros H. unfold price_cut, cut_off_of, percentile.
  destruct (List.map (@price _ _ _ _ _ _ _) df) as [|x0 l0] eqn:Emap;
    [contradiction|].
  cbn [bind]. f_equal. unfold linear_interpolation.
  assert (E : all_values (x0 :: l0) = None).
  { clear Emap. induction (x0 :: l0) as [|x l IH]; [contradiction|].
    destruct H as [->|H]; [reflexivity|].
    simpl. destruct x; [|reflexivity]. now rewrite (IH H). }
  rewrite E. unfold price_at_most. clear.
  induction df as [|r df IH]; [reflexivity|].
  simpl. destruct (price r); assumption.
Qed.

Lemma select_rows_of_range_filters (df df' : list row) :
  range_filters df = range_filters df' -> select_rows df = select_rows df'.
Proof.
  intros H. unfold select_rows, filter_rows. now rewrite H.
Qed.

(** C7, as stated, fails: a listing whose price text is empty converts
    (to NaN), passes the range filters and makes the 96th percentile NaN,
    so the listing that converted without loss is dropped with it by the
    price cut, and the pipeline does not end as it does on that listing
    alone. *)
Lemma empty_price_loses_every_row :
  convert_columns correctly_rounded [priceless_text_row; good_text_row]
  = Ok {| rows := [priceless_row; good_row]; text_columns := [] |}
  /\ filter_rows [priceless_row; good_row] = Ok []
  /\ train_rows correctly_rounded [good_text_row] = Ok [good_row]
  /\ train_rows correctly_rounded [priceless_text_row; good_text_row]
     <> train_rows correctly_rounded [good_text_row].
Proof.
  split; [vm_compute; reflexivity|].
  split; [vm_compute; reflexivity|].
  split; [vm_compute; reflexivity|].
  vm_compute. discriminate.
Qed.

(** C7, amended. In a table none of whose numeric fields has more than
    15 characters (numbers that the float parser reads exactly), a row
    whose numeric fields are empty or runs of the digits [0-9] and whose
    [bed], [bath], [toilet] or [pkn_space] is empty converts, with a
    missing number there, and is the only row lost: the pipeline ends as
    it does on the table without that row. *)
Theorem empty_count_loses_only_its_row (floatify : str -> Q)
        (t1 t2 : list text_row) (r : text_row) :
  exact_to_15_digits floatify ->
  Forall short_numbers (t1 ++ r :: t2) ->
  numerals r ->
  bed r = [] \/ bath r = [] \/ toilet r = [] \/ pkn_space r = [] ->
  train_rows floatify (t1 ++ r :: t2) = train_rows floatify (t1 ++ t2).
Proof.
  intros Hx Hs (Hb & Hba & Ht & Hp & Hpr) Hempty.
  assert (Hs' : Forall short_numbers (t1 ++ t2)).
  { apply Forall_app in Hs. destruct Hs as [H1 H2].
    apply Forall_app. split; [exact H1 | now inversion H2]. }
  assert (Hr : short_numbers r).
  { apply Forall_app in Hs. destruct Hs as [_ H2]. now inversion H2. }
  destruct Hr as (Lb & Lba & Lt & Lp & Lpr).
  assert (Hparse : forall s, numeral s -> (length s <= 15)%nat ->
                             parse_integer s = Ok (integer_of s)).
  { intros s Hn Hl. apply parse_integer_numeral; [exact Hn|].
    pose proof (@numeral_15_float s Hn Hl) as Hv.
    change (2 ^ 53)%Z with 9007199254740992%Z in Hv. unfold uint64_max. lia. }
  assert (Hout : passes_ranges (numbers_row r) = false).
  { apply missing_count_out_of_range. unfold numbers_row. cbn [bed bath toilet pkn_space].
    destruct Hempty as [E|[E|[E|E]]]; rewrite E; auto. }
  rewrite (train_rows_short Hx Hs), (train_rows_short Hx Hs').
  assert (Hsame : parse_columns (t1 ++ r :: t2) = parse_columns (t1 ++ t2)).
  { unfold parse_columns. rewrite !map_app. cbn [List.map].
    rewrite (@parses_insert _ _ _ _ (Hparse _ Hb Lb)),
      (@parses_insert _ _ _ _ (Hparse _ Hba Lba)),
      (@parses_insert _ _ _ _ (Hparse _ Ht Lt)),
      (@parses_insert _ _ _ _ (Hparse _ Hp Lp)),
      (@parses_insert _ _ _ _ (Hparse _ Hpr Lpr)).
    reflexivity. }
  rewrite Hsame.
  destruct (parse_columns (t1 ++ t2)) as [[]|]; cbn [bind]; [|reflexivity].
  apply select_rows_of_range_filters.
  rewrite !map_app. cbn [List.map].
  rewrite !range_filters_app, range_filters_cons, Hout. reflexivity.
Qed.

Lemma empty_count_loses_only_its_row_witness :
  train_rows correctly_rounded ([] ++ bedless_text_row :: [good_text_row])
  = train_rows correctly_rounded ([] ++ [good_text_row]).
Proof.
  apply empty_count_loses_only_its_row.
  - exact correctly_rounded_exact.
  - repeat constructor; vm_compute; discriminate.
  - repeat split; (left; reflexivity) || (right; reflexivity).
  - left. reflexivity.
Defined.

(* ================================================================== *)
(** * Characters: matching and title-casing *)
(* ================================================================== *)

Lemma code_points_In (n : nat) (c : char) :
  (c < N.of_nat n)%N -> In c (code_points n).
Proof.
  intros H. unfold code_points. apply in_map_iff.
  exists (N.to_nat c). split; [apply N2Nat.id|].
  apply in_seq. lia.
Qed.

Lemma tabled_or_plain (c : char) :
  In c tabled_code_points \/ ((384 <= c)%N /\ c <> kelvin).
Proof.
  destruct (N.lt_ge_cases c 384) as [H|H].
  - left. apply in_or_app. left. now apply code_points_In.
  - destruct (N.eq_dec c kelvin) as [->|Hk].
    + left. apply in_or_app. right. now left.
    + right. auto.
Qed.

Lemma tabled_code_points_checked :
  forallb (fun c => match_by_pattern_of c && title_char_stable true c
                    && title_char_stable false c) tabled_code_points = true.
Proof. vm_compute. reflexivity. Qed.

Lemma pattern_char_small (p : char) : pattern_char p = true -> (p < 123)%N.
Proof.
  unfold pattern_char, is_ascii_lower, char_eqb.
  char_tests; simpl; try discriminate; intros _; lia.
Qed.

Lemma sre_lower_small (p : char) : (p < 123)%N -> (sre_lower p < 155)%N.
Proof.
  unfold sre_lower, is_ascii_upper, char_eqb, I_dot, kelvin.
  char_tests; simpl; lia.
Qed.

Lemma sre_lower_plain (c : char) :
  (384 <= c)%N -> c <> kelvin -> sre_lower c = c.
Proof.
  unfold sre_lower, is_ascii_upper, char_eqb, I_dot, kelvin.
  intros H Hk. char_tests; simpl; congruence.
Qed.

Lemma is_cased_plain (c : char) :
  (384 <= c)%N -> c <> kelvin -> is_cased c = false.
Proof.
  unfold is_cased, is_ascii_upper, is_ascii_lower, char_eqb, I_dot,
    i_dotless, long_s, kelvin.
  intros H Hk. char_tests; simpl; congruence.
Qed.

Lemma title_char_plain (b : bool) (c : char) :
  (384 <= c)%N -> c <> kelvin -> title_char b c = [c].
Proof.
  unfold title_char, to_lower_full, to_title_full, is_ascii_upper,
    is_ascii_lower, char_eqb, I_dot, i_dotless, long_s, kelvin.
  intros H Hk. destruct b; char_tests; simpl; congruence.
Qed.

Lemma pattern_of_plain (c : char) :
  (384 <= c)%N -> c <> kelvin -> pattern_of c = c.
Proof.
  intros H Hk. unfold pattern_of. rewrite (sre_lower_plain H Hk).
  unfold char_eqb, i_dotless, long_s. char_tests; reflexivity.
Qed.

(** A pattern character matches exactly the characters that
    [pattern_of] sends to it. *)
Lemma ci_match_pattern_of (p c : char) :
  pattern_char p = true -> ci_match p c = char_eqb (pattern_of c) p.
Proof.
  intros Hp. pose proof (pattern_char_small p Hp) as Hp'.
  destruct (tabled_or_plain c) as [Hc|[Hc Hk]].
  - pose proof tabled_code_points_checked as H.
    rewrite forallb_forall in H. specialize (H c Hc).
    rewrite !andb_true_iff in H. destruct H as [[H _] _].
    unfold match_by_pattern_of in H. rewrite forallb_forall in H.
    specialize (H p (@code_points_In 123%nat p Hp')). rewrite Hp in H. simpl in H.
    now apply Bool.eqb_prop in H.
  - rewrite (pattern_of_plain Hc Hk). unfold ci_match.
    rewrite (sre_lower_plain Hc Hk).
    pose proof (sre_lower_small Hp') as Hl.
    assert (E1 : char_eqb c p = false) by (apply N.eqb_neq; lia).
    assert (E2 : char_eqb c (sre_lower p) = false) by (apply N.eqb_neq; lia).
    rewrite E1. destruct (is_cased p); [|reflexivity].
    simpl. rewrite E2. simpl.
    unfold sre_fixes, char_eqb, i_dotless, long_s.
    char_tests; simpl; char_tests; reflexivity.
Qed.

Lemma title_char_stable_true (b : bool) (c : char) : title_char_stable b c = true.
Proof.
  destruct (tabled_or_plain c) as [Hc|[Hc Hk]].
  - pose proof tabled_code_points_checked as H.
    rewrite forallb_forall in H. specialize (H c Hc).
    rewrite !andb_true_iff in H. destruct H as [[_ H1] H2]. now destruct b.
  - unfold title_char_stable. rewrite (title_char_plain b Hc Hk).
    rewrite (title_char_plain b Hc Hk).
    rewrite (proj2 (str_eqb_eq [c] [c]) eq_refl).
    rewrite char_eqb_refl, Bool.eqb_reflx.
    assert (E : char_eqb c I_dot = false) by (apply N.eqb_neq; unfold I_dot; lia).
    now rewrite E.
Qed.

(** [title_char] on a character other than [I_dot]. *)
Lemma title_char_spec (b : bool) (c : char) :
  c <> I_dot ->
  exists c', title_char b c = [c']
             /\ pattern_of c' = pattern_of c
             /\ is_cased c' = is_cased c
             /\ c' <> I_dot
             /\ title_char b c' = [c'].
Proof.
  intros Hc. pose proof (title_char_stable_true b c) as H.
  unfold title_char_stable in H.
  assert (E : char_eqb c I_dot = false) by now apply N.eqb_neq.
  rewrite E in H. simpl in H.
  destruct (title_char b c) as [|c' [|? ?]]; try discriminate.
  exists c'. rewrite !andb_true_iff in H.
  destruct H as [[[H1 H2] H3] H4].
  split; [reflexivity|].
  split; [now apply char_eqb_eq|].
  split; [now apply Bool.eqb_prop|].
  split; [intros ->; rewrite char_eqb_refl in H3; discriminate|].
  now apply str_eqb_eq.
Qed.

(* ================================================================== *)
(** * The keyword search *)
(* ================================================================== *)

Lemma starts_with_firstn (kw s : str) :
  starts_with kw s = true -> firstn (length kw) s = kw.
Proof.
  revert s; induction kw as [|p kw IH]; intros s; simpl; [reflexivity|].
  destruct s as [|c s]; [discriminate|].
  rewrite andb_true_iff, char_eqb_eq. intros [-> H]. simpl. now rewrite IH.
Qed.

Lemma match_literal_starts (kw text : str) :
  Forall (fun p => pattern_char p = true) kw ->
  match_literal kw text
  = if starts_with kw (canon text) then Some (firstn (length kw) text) else None.
Proof.
  intros H. revert text. induction H as [|p kw Hp _ IH]; intros text; simpl;
    [reflexivity|].
  destruct text as [|c text]; simpl; [reflexivity|].
  rewrite (@ci_match_pattern_of p c Hp).
  destruct (char_eqb (pattern_of c) p); simpl; [|reflexivity].
  rewrite IH. destruct (starts_with kw (canon text)); reflexivity.
Qed.

Lemma match_alt_find (pats : list str) (text : str) :
  Forall (Forall (fun p => pattern_char p = true)) pats ->
  match_alt pats text
  = option_map (fun kw => firstn (length kw) text)
               (find (fun kw => starts_with kw (canon text)) pats).
Proof.
  induction 1 as [|kw pats Hkw _ IH]; simpl; [reflexivity|].
  rewrite (match_literal_starts text Hkw).
  destruct (starts_with kw (canon text)); [reflexivity | exact IH].
Qed.

Lemma details_pattern_chars :
  Forall (Forall (fun p => pattern_char p = true)) details_pattern.
Proof.
  apply Forall_forall. intros kw Hkw. apply Forall_forall. intros p Hp.
  assert (H : forallb (forallb pattern_char) details_pattern = true) by reflexivity.
  rewrite forallb_forall in H. specialize (H kw Hkw).
  rewrite forallb_forall in H. now apply H.
Qed.

Lemma match_details (text : str) :
  match_alt details_pattern text
  = option_map (fun kw => firstn (length kw) text)
               (find (fun kw => starts_with kw (canon text)) details_pattern).
Proof. apply match_alt_find, details_pattern_chars. Qed.

(** Where the text is a keyword, alone or followed by a space, the
    search finds that keyword; at a space it finds none. *)
Lemma find_own_end (kw : str) :
  In kw details_pattern ->
  find (fun k => starts_with k kw) details_pattern = Some kw.
Proof.
  intros H. repeat (destruct H as [<-|H]; [reflexivity|]). contradiction.
Qed.

Lemma find_own_space (kw rest : str) :
  In kw details_pattern ->
  find (fun k => starts_with k (kw ++ 32%N :: rest)) details_pattern = Some kw.
Proof.
  intros H. repeat (destruct H as [<-|H]; [reflexivity|]). contradiction.
Qed.

Lemma find_at_space (rest : str) :
  find (fun k => starts_with k (32%N :: rest)) details_pattern = None.
Proof. reflexivity. Qed.

Lemma keyword_not_empty (kw : str) : In kw details_pattern -> kw <> [].
Proof.
  intros H. repeat (destruct H as [<-|H]; [discriminate|]). contradiction.
Qed.

Lemma firstn_incl (A : Type) (n : nat) (l : list A) : incl (firstn n l) l.
Proof.
  intros x Hx. rewrite <- (firstn_skipn n l). apply in_or_app. now left.
Qed.

(** Every match is, character by character, a spelling of a keyword,
    and is made of characters of the text. *)
Lemma findall_from_spec (skip : nat) (text : str) :
  Forall (fun m => In (canon m) details_pattern /\ incl m text)
         (findall_from details_pattern skip text).
Proof.
  revert skip. induction text as [|c rest IH]; intros skip; cbn [findall_from];
    [constructor|].
  assert (Hw : forall k, Forall (fun m => In (canon m) details_pattern
                                        /\ incl m (c :: rest))
                           (findall_from details_pattern k rest)).
  { intros k. eapply Forall_impl; [|apply IH].
    intros m [H1 H2]. split; [exact H1|]. now apply incl_tl. }
  destruct skip as [|k]; [|apply Hw].
  destruct (match_alt details_pattern (c :: rest)) as [m|] eqn:E; [|apply Hw].
  constructor; [|apply Hw].
  rewrite match_details in E.
  destruct (find (fun kw => starts_with kw (canon (c :: rest))) details_pattern)
    as [kw|] eqn:F; [|discriminate].
  injection E as <-. apply find_some in F. destruct F as [Hin Hs].
  split.
  - unfold canon. rewrite <- firstn_map. fold (canon (c :: rest)).
    now rewrite (starts_with_firstn _ _ Hs).
  - apply firstn_incl.
Qed.

Lemma findall_from_skip (pats : list str) (a b : str) :
  findall_from pats (length a) (a ++ b) = findall_from pats 0 b.
Proof.
  induction a as [|c a IH]; simpl; [reflexivity | exact IH].
Qed.

Lemma canon_app (a b : str) : canon (a ++ b) = canon a ++ canon b.
Proof. apply map_app. Qed.

Lemma canon_length (a : str) : length (canon a) = length a.
Proof. apply length_map. Qed.

(** Searching a space-separated sequence of keyword spellings returns
    the sequence. *)
Lemma findall_joined (toks : list str) :
  Forall (fun m => In (canon m) details_pattern) toks ->
  findall details_pattern (join [32%N] toks) = toks.
Proof.
  unfold findall. induction 1 as [|m toks Hm Htoks IH]; [reflexivity|].
  assert (Hlen : length (canon m) = length m) by apply canon_length.
  destruct m as [|c m'].
  { exfalso. now apply (keyword_not_empty Hm). }
  destruct toks as [|m2 toks'].
  - cbn [join]. cbn [findall_from].
    rewrite match_details, (find_own_end Hm). cbn [option_map].
    rewrite Hlen, firstn_all. f_equal.
    cbn [length]. replace (S (length m') - 1)%nat with (length m') by lia.
    rewrite <- (app_nil_r m') at 2. now rewrite findall_from_skip.
  - change (join [32%N] ((c :: m') :: m2 :: toks'))
      with ((c :: m') ++ 32%N :: join [32%N] (m2 :: toks')).
    set (J := join [32%N] (m2 :: toks')) in *.
    change ((c :: m') ++ 32%N :: J) with (c :: (m' ++ 32%N :: J)).
    cbn [findall_from].
    rewrite match_details.
    change (c :: m' ++ 32%N :: J) with ((c :: m') ++ 32%N :: J).
    rewrite canon_app.
    change (canon (32%N :: J)) with (32%N :: canon J).
    rewrite (find_own_space _ Hm). cbn [option_map].
    rewrite Hlen, firstn_app, firstn_all, Nat.sub_diag, firstn_O, app_nil_r.
    f_equal.
    cbn [length]. replace (S (length m') - 1)%nat with (length m') by lia.
    rewrite findall_from_skip.
    cbn [findall_from]. rewrite match_details.
    change (canon (32%N :: J)) with (32%N :: canon J).
    rewrite find_at_space. cbn [option_map]. exact IH.
Qed.

(* ================================================================== *)
(** * Title-casing and re-extraction *)
(* ================================================================== *)

(** Title-casing a string without [I_dot] keeps its length and the
    pattern characters it spells, introduces no [I_dot], and is not
    changed by a second title-casing. *)
Lemma str_title_from_spec (b : bool) (s : str) :
  Forall (fun c => c <> I_dot) s ->
  length (str_title_from b s) = length s
  /\ canon (str_title_from b s) = canon s
  /\ Forall (fun c => c <> I_dot) (str_title_from b s)
  /\ str_title_from b (str_title_from b s) = str_title_from b s.
Proof.
  intros H. revert b. induction H as [|c s Hc _ IH]; intros b.
  - repeat split; constructor.
  - destruct (title_char_spec b Hc) as (c' & E & Hp & Hcased & Hd & Efix).
    destruct (IH (is_cased c)) as (IH1 & IH2 & IH3 & IH4).
    cbn [str_title_from]. rewrite E. cbn [app].
    repeat split.
    + cbn [length]. now rewrite IH1.
    + cbn [canon List.map]. fold (canon (str_title_from (is_cased c) s)).
      fold (canon s). now rewrite Hp, IH2.
    + now constructor.
    + cbn [str_title_from]. rewrite Efix, Hcased, IH4. reflexivity.
Qed.

Lemma str_title_from_space (b : bool) (a x : str) :
  str_title_from b (a ++ 32%N :: x)
  = str_title_from b a ++ 32%N :: str_title_from false x.
Proof.
  revert b. induction a as [|c a IH]; intros b.
  - destruct b; reflexivity.
  - cbn [app str_title_from]. rewrite IH. now rewrite app_assoc.
Qed.

Lemma str_title_join (ms : list str) :
  str_title (join [32%N] ms) = join [32%N] (List.map str_title ms).
Proof.
  unfold str_title. induction ms as [|m ms IH]; [reflexivity|].
  destruct ms as [|m2 ms]; [reflexivity|].
  change (join [32%N] (m :: m2 :: ms)) with (m ++ 32%N :: join [32%N] (m2 :: ms)).
  rewrite str_title_from_space, IH. reflexivity.
Qed.

Lemma join_no_I_dot (ms : list str) :
  Forall (Forall (fun c => c <> I_dot)) ms ->
  Forall (fun c => c <> I_dot) (join [32%N] ms).
Proof.
  induction 1 as [|m ms Hm Hms IH]; [constructor|].
  destruct ms as [|m2 ms]; [exact Hm|].
  change (join [32%N] (m :: m2 :: ms)) with (m ++ 32%N :: join [32%N] (m2 :: ms)).
  apply Forall_app. split; [exact Hm|].
  constructor; [discriminate | exact IH].
Qed.

(** C9, as stated, fails: MANSION written with a dotted capital I
    (U+0130) is extracted with the lower case of that letter, an [i]
    followed by a combining dot (U+0307); the combining dot breaks the
    keyword, and re-extraction returns the empty string. *)
Lemma extract_details_not_idempotent :
  extract_details mansion_dotted = py "Mansi" ++ [combining_dot] ++ py "on"
  /\ extract_details (extract_details mansion_dotted) = []
  /\ extract_details (extract_details mansion_dotted)
     <> extract_details mansion_dotted.
Proof.
  split; [reflexivity|]. split; [reflexivity|].
  vm_compute. discriminate.
Qed.

(** C9, amended. For every text without the dotted capital I (U+0130),
    in particular for every ASCII text, extracting the type keywords of
    the extractor's own output returns that output. *)
Theorem extract_details_idempotent (text : str) :
  ~ In I_dot text ->
  extract_details (extract_details text) = extract_details text.
Proof.
  intros Hdot.
  assert (Hspec := findall_from_spec 0 text).
  fold (findall details_pattern text) in Hspec.
  unfold extract_details. change (py " ") with [32%N].
  set (ms := findall details_pattern text) in *.
  assert (Hfree : Forall (Forall (fun c => c <> I_dot)) ms).
  { eapply Forall_impl; [|exact Hspec]. intros m [_ Hincl].
    apply Forall_forall. intros c Hc ->. apply Hdot. now apply Hincl. }
  assert (Hkw : Forall (fun m => In (canon m) details_pattern)
                       (List.map str_title ms)).
  { apply Forall_map. rewrite Forall_forall in Hspec, Hfree.
    apply Forall_forall. intros m Hm.
    destruct (str_title_from_spec false (Hfree m Hm)) as (_ & Hc & _).
    unfold str_title. rewrite Hc. now apply Hspec. }
  rewrite (str_title_join ms), (findall_joined Hkw), str_title_join.
  f_equal. rewrite map_map. apply map_ext_in. intros m Hm.
  rewrite Forall_forall in Hfree.
  now destruct (str_title_from_spec false (Hfree m Hm)) as (_ & _ & _ & Hfix).
Qed.

Lemma extract_details_idempotent_witness :
  ~ In I_dot title_with_variants
  /\ extract_details (extract_details title_with_variants)
     = extract_details title_with_variants.
Proof.
  assert (H : ~ In I_dot title_with_variants).
  { intros H. vm_compute in H.
    repeat (destruct H as [H|H]; [discriminate H|]). exact H. }
  split; [exact H | exact (@extract_details_idempotent title_with_variants H)].
Defined.

(* ================================================================== *)
(** * More on the address cleaner *)
(* ================================================================== *)

Lemma lstrip_head (s : str) :
  lstrip s = [] \/ exists c t, lstrip s = c :: t /\ is_space c = false.
Proof.
  induction s as [|c s IH]; simpl; [now left|].
  destruct (is_space c) eqn:E; [exact IH|].
  right. exists c, s. auto.
Qed.

Lemma lstrip_incl (s : str) : incl (lstrip s) s.
Proof.
  induction s as [|c s IH]; simpl; [apply incl_refl|].
  destruct (is_space c); [now apply incl_tl | apply incl_refl].
Qed.

Lemma lstrip_idempotent (s : str) : lstrip (lstrip s) = lstrip s.
Proof.
  destruct (lstrip_head s) as [->|(c & t & -> & Hc)]; [reflexivity|].
  simpl. now rewrite Hc.
Qed.

Lemma lstrip_snoc (l : str) (c : char) :
  is_space c = false -> exists l', lstrip (l ++ [c]) = l' ++ [c].
Proof.
  intros Hc. induction l as [|a l IH]; simpl.
  - rewrite Hc. now exists [].
  - destruct (is_space a); [exact IH|]. now exists (a :: l).
Qed.

Lemma rstrip_incl (s : str) : incl (rstrip s) s.
Proof.
  unfold rstrip. intros x Hx. apply in_rev in Hx.
  apply lstrip_incl in Hx. now apply in_rev in Hx.
Qed.

Lemma rstrip_idempotent (s : str) : rstrip (rstrip s) = rstrip s.
Proof.
  unfold rstrip. now rewrite rev_involutive, lstrip_idempotent.
Qed.

Lemma rstrip_keeps_head (c : char) (y : str) :
  is_space c = false -> exists z, rstrip (c :: y) = c :: z.
Proof.
  intros Hc. unfold rstrip. simpl.
  destruct (@lstrip_snoc (rev y) c Hc) as [l' ->].
  rewrite rev_app_distr. simpl. eauto.
Qed.

Lemma strip_incl (s : str) : incl (strip s) s.
Proof.
  unfold strip. intros x Hx. apply lstrip_incl. now apply rstrip_incl.
Qed.

Lemma strip_idempotent (s : str) : strip (strip s) = strip s.
Proof.
  unfold strip.
  destruct (lstrip_head s) as [->|(c & t & -> & Hc)]; [reflexivity|].
  destruct (@rstrip_keeps_head c t Hc) as [z Ez].
  rewrite Ez. simpl. rewrite Hc. rewrite <- Ez. apply rstrip_idempotent.
Qed.

(** A stripped string begins and ends with characters that are not
    whitespace. *)
Lemma strip_ends (s : str) (c : char) :
  hd_error (strip s) = Some c \/ hd_error (rev (strip s)) = Some c ->
  is_space c = false.
Proof.
  unfold strip. intros [H|H].
  - destruct (lstrip_head s) as [E|(a & t & E & Ha)]; rewrite E in H.
    + discriminate.
    + destruct (@rstrip_keeps_head a t Ha) as [z Ez]. rewrite Ez in H.
      simpl in H. now injection H as <-.
  - unfold rstrip in H. rewrite rev_involutive in H.
    destruct (lstrip_head (rev (lstrip s))) as [E|(a & t & E & Ha)];
      rewrite E in H; [discriminate|].
    simpl in H. now injection H as <-.
Qed.

Lemma split_without_sep (sep : char) (s : str) :
  ~ In sep s -> split sep s = [s].
Proof.
  induction s as [|c s IH]; intros H; simpl; [reflexivity|].
  destruct (char_eqb c sep) eqn:E.
  - apply char_eqb_eq in E. subst. exfalso. apply H. now left.
  - rewrite IH; [reflexivity|]. intros Hin. apply H. now right.
Qed.

Lemma get_address_cases (addr : str) :
  get_address addr = []
  \/ exists seg, In seg (split comma addr) /\ get_address addr = strip seg.
Proof.
  unfold get_address. cbv zeta.
  rewrite (@py_slice_penultimate str [] (split comma addr)).
  destruct (Nat.leb_spec 2 (length (split comma addr))) as [H|H].
  - right. eexists. split; [|reflexivity]. apply nth_In. lia.
  - now left.
Qed.

(** X1. The city returned by [get_address] contains no comma, and
    neither begins nor ends with a whitespace character. *)
Theorem get_address_clean (addr : str) :
  ~ In comma (get_address addr)
  /\ strip (get_address addr) = get_address addr
  /\ (forall c, hd_error (get_address addr) = Some c
                \/ hd_error (rev (get_address addr)) = Some c ->
                is_space c = false).
Proof.
  destruct (get_address_cases addr) as [->|(seg & Hseg & ->)].
  - split; [intros []|]. split; [reflexivity|].
    intros c [H|H]; discriminate H.
  - split; [|split].
    + intros H. apply strip_incl in H.
      pose proof (split_no_sep comma addr) as Hno.
      rewrite Forall_forall in Hno. now apply (Hno seg Hseg).
    + apply strip_idempotent.
    + apply strip_ends.
Qed.

(** X2. Cleaning an address twice loses the city: [get_address] of a
    result of [get_address] is the empty string. *)
Theorem get_address_twice (addr : str) :
  get_address (get_address addr) = [].
Proof.
  assert (Hno : ~ In comma (get_address addr)).
  { destruct (get_address_cases addr) as [->|(seg & Hseg & ->)]; [intros []|].
    intros H. apply strip_incl in H.
    pose proof (split_no_sep comma addr) as Hs.
    rewrite Forall_forall in Hs. now apply (Hs seg Hseg). }
  generalize dependent (get_address addr). intros city Hno.
  unfold get_address. cbv zeta.
  rewrite (@split_without_sep comma city Hno).
  rewrite (@py_slice_penultimate str [] [city]). reflexivity.
Qed.

(* ================================================================== *)
(** * More on the digit cleaner and the numeric conversion *)
(* ================================================================== *)

Lemma filter_nil_iff (A : Type) (f : A -> bool) (l : list A) :
  filter f l = [] <-> forall x, In x l -> f x = false.
Proof.
  induction l as [|a l IH]; simpl; [split; [intros _ x [] | reflexivity]|].
  destruct (f a) eqn:E; split.
  - discriminate.
  - intros H. specialize (H a (or_introl eq_refl)). congruence.
  - intros H x [<-|Hx]; [exact E | now apply IH].
  - intros H. apply IH. intros x Hx. apply H. now right.
Qed.

Lemma clean_text_numeral (is_decimal : char -> bool) (s : str) :
  plain_digits is_decimal s -> numeral (clean_text is_decimal s).
Proof.
  intros H. right. apply forallb_forall. intros c Hc.
  unfold clean_text in Hc. apply filter_In in Hc. destruct Hc. now apply H.
Qed.

(** X4. A column of texts whose decimal digits are all among [0-9], at
    most 18 of them in a text, never makes the conversion raise after
    cleaning: the column comes back as numbers, not as text, and a value
    is NaN exactly when its text has no digit (signs and decimal points
    are cleaned away with the rest). *)
Theorem clean_then_convert (is_decimal : char -> bool) (floatify : str -> Q)
        (texts : list str) :
  Forall (plain_digits is_decimal) texts ->
  Forall (fun text => (length (clean_text is_decimal text) <= 18)%nat) texts ->
  exists value : str -> num,
    to_numeric floatify (List.map (clean_text is_decimal) texts)
    = Ok (Numbers (List.map value texts))
    /\ forall text, value text = None
                    <-> forall c, In c text -> is_decimal c = false.
Proof.
  intros Hp Hl.
  destruct (@to_numeric_int64 floatify (List.map (clean_text is_decimal) texts))
    as (value & Hv & Hnone & _).
  { apply Forall_map. rewrite Forall_forall in *. intros text Hin.
    pose proof (clean_text_numeral (Hp text Hin)) as Hn.
    split; [exact Hn|]. apply (numeral_18_int64 Hn (Hl text Hin)). }
  exists (fun text => value (clean_text is_decimal text)).
  split; [now rewrite Hv, map_map|].
  intros text. rewrite Hnone. unfold clean_text. apply filter_nil_iff.
Qed.

Lemma clean_then_convert_witness :
  exists value : str -> num,
    to_numeric correctly_rounded
               (List.map (clean_text is_ascii_digit) scraped_prices)
    = Ok (Numbers (List.map value scraped_prices))
    /\ forall text, value text = None
                    <-> forall c, In c text -> is_ascii_digit c = false.
Proof.
  apply clean_then_convert.
  - repeat constructor; intros c _ Hc; exact Hc.
  - repeat constructor; vm_compute; discriminate.
Defined.

Lemma digits_of_uint (d : Decimal.uint) (acc : nat) :
  forallb is_ascii_digit (py (NilEmpty.string_of_uint d)) = true
  /\ fold_left (fun acc c => (10 * acc + (Z.of_N c - 48))%Z)
               (py (NilEmpty.string_of_uint d)) (Z.of_nat acc)
     = Z.of_nat (Nat.of_uint_acc d acc).
Proof.
  revert acc. induction d as [|d IH|d IH|d IH|d IH|d IH|d IH|d IH|d IH|d IH|d IH];
    intros acc; [split; reflexivity|..];
    (split; [exact (proj1 (IH acc))|]);
    cbn [NilEmpty.string_of_uint py String.list_ascii_of_string List.map
         fold_left Nat.of_uint_acc];
    rewrite <- (proj2 (IH _)); f_equal;
    rewrite ?Nat.tail_mul_spec; cbn [N_of_ascii N_of_digits]; simpl Z.of_N; lia.
Qed.

Lemma str_of_nat_value (n : nat) :
  str_of_nat n <> []
  /\ forallb is_ascii_digit (str_of_nat n) = true
  /\ digits_value (str_of_nat n) = Z.of_nat n.
Proof.
  unfold str_of_nat, digits_value. split; [|split].
  - pose proof (DecimalFacts.unorm_nonnil (Nat.to_uint n)) as H.
    rewrite <- DecimalNat.Unsigned.to_of, DecimalNat.Unsigned.of_to in H.
    destruct (Nat.to_uint n); [congruence | discriminate..].
  - apply (digits_of_uint (Nat.to_uint n) 0).
  - pose proof (proj2 (digits_of_uint (Nat.to_uint n) 0)) as H.
    change (Z.of_nat 0) with 0%Z in H. rewrite H.
    change (Nat.of_uint_acc (Nat.to_uint n) 0) with (Nat.of_uint (Nat.to_uint n)).
    now rewrite DecimalNat.Unsigned.of_to.
Qed.

(** Cleaning a field that holds one decimal number leaves the digits of
    that number. *)
Lemma clean_decimal_field (is_decimal : char -> bool) (x : decimal_field) :
  (forall c, is_ascii_digit c = true -> is_decimal c = true) ->
  one_number is_decimal x ->
  clean_text is_decimal (field_text x) = str_of_nat (number x).
Proof.
  intros Hdigits Hrest.
  destruct (str_of_nat_value (number x)) as (_ & Hd & _).
  unfold clean_text, field_text. rewrite !filter_app.
  rewrite (proj2 (filter_nil_iff is_decimal (before x))),
          (proj2 (filter_nil_iff is_decimal (after x))).
  - rewrite app_nil_r. simpl. apply filter_all.
    rewrite forallb_forall in Hd. apply Forall_forall.
    intros c Hc. apply Hdigits. now apply Hd.
  - intros c Hc. apply Hrest. apply in_or_app. now right.
  - intros c Hc. apply Hrest. apply in_or_app. now left.
Qed.

(** X5. A column of fields that each hold one decimal number between
    texts without digits, such as a count followed by its unit, is
    cleaned and converted to those numbers, as long as they fit in 64
    unsigned bits. *)
Theorem decimal_field_value (is_decimal : char -> bool) (floatify : str -> Q)
        (fields : list decimal_field) :
  (forall c, is_ascii_digit c = true -> is_decimal c = true) ->
  Forall (one_number is_decimal) fields ->
  Forall (fun x => (Z.of_nat (number x) <= uint64_max)%Z) fields ->
  to_numeric floatify
             (List.map (fun x => clean_text is_decimal (field_text x)) fields)
  = Ok (Numbers (List.map (fun x => Some (inject_Z (Z.of_nat (number x))))
                          fields)).
Proof.
  intros Hdigits Hone Hmax.
  assert (Hcol : List.map (fun x => clean_text is_decimal (field_text x)) fields
                 = List.map (fun x => str_of_nat (number x)) fields).
  { apply map_ext_in. intros x Hx. rewrite Forall_forall in Hone.
    apply clean_decimal_field; auto. }
  rewrite Hcol.
  assert (Hint : forall n, integer_of (str_of_nat n) = Some (Z.of_nat n)).
  { intros n. destruct (str_of_nat_value n) as (Hne & _ & Hv).
    unfold integer_of. rewrite Hv. destruct (str_of_nat n); congruence. }
  assert (Hp : mapM parse_integer (List.map (fun x => str_of_nat (number x)) fields)
               = Ok (List.map (fun x => Some (Z.of_nat (number x))) fields)).
  { rewrite <- (map_ext _ _ (fun x => Hint (number x))).
    rewrite <- (map_map (fun x => str_of_nat (number x)) integer_of).
    apply mapM_all_ok. apply Forall_map.
    eapply Forall_impl; [|exact Hmax]. intros x Hx.
    destruct (str_of_nat_value (number x)) as (_ & Hd & Hv).
    apply parse_integer_numeral; [now right | now rewrite Hv]. }
  unfold to_numeric. rewrite Hp. cbn [bind].
  rewrite existsb_false; [now rewrite map_map|].
  apply Forall_map. apply Forall_forall. reflexivity.
Qed.

Lemma decimal_field_value_witness :
  to_numeric correctly_rounded
             (List.map (fun x => clean_text is_ascii_digit (field_text x))
                       scraped_beds)
  = Ok (Numbers [Some 4; Some 35]).
Proof.
  apply (@decimal_field_value is_ascii_digit correctly_rounded scraped_beds).
  - intros c Hc. exact Hc.
  - repeat constructor; intros c Hc; vm_compute in Hc;
      repeat (destruct Hc as [<-|Hc]; [reflexivity|]); contradiction.
  - repeat constructor; vm_compute; discriminate.
Defined.

(* ================================================================== *)
(** * More on the keyword extractor *)
(* ================================================================== *)

Lemma canon_join (ms : list str) :
  canon (join [32%N] ms) = join [32%N] (List.map canon ms).
Proof.
  induction ms as [|m ms IH]; [reflexivity|].
  destruct ms as [|m2 ms]; [reflexivity|].
  change (join [32%N] (m :: m2 :: ms)) with (m ++ 32%N :: join [32%N] (m2 :: ms)).
  rewrite canon_app. change (canon (32%N :: join [32%N] (m2 :: ms)))
    with (32%N :: canon (join [32%N] (m2 :: ms))).
  rewrite IH. reflexivity.
Qed.

(** X6. For a text without the dotted capital I (U+0130), the output of
    [extract_details] spells, up to the case of letters, the keywords
    found in the text, in their order of appearance, separated by single
    spaces, and nothing else. *)
Theorem extract_details_spells_keywords (text : str) :
  ~ In I_dot text ->
  let found := List.map canon (findall details_pattern text) in
  Forall (fun kw => In kw details_pattern) found
  /\ canon (extract_details text) = join [32%N] found.
Proof.
  intros Hdot found.
  assert (Hspec := findall_from_spec 0 text).
  fold (findall details_pattern text) in Hspec.
  split.
  - unfold found. apply Forall_map.
    eapply Forall_impl; [|exact Hspec]. now intros m [H _].
  - unfold extract_details. change (py " ") with [32%N].
    assert (Hfree : Forall (fun c => c <> I_dot)
                           (join [32%N] (findall details_pattern text))).
    { apply join_no_I_dot. eapply Forall_impl; [|exact Hspec].
      intros m [_ Hincl]. apply Forall_forall. intros c Hc ->.
      apply Hdot. now apply Hincl. }
    unfold str_title.
    destruct (str_title_from_spec false Hfree) as (_ & Hc & _).
    rewrite Hc. apply canon_join.
Qed.

Lemma extract_details_spells_keywords_witness :
  canon (extract_details title_with_variants)
  = py "semi-detached house block of flats".
Proof.
  assert (H : ~ In I_dot title_with_variants).
  { intros H. vm_compute in H.
    repeat (destruct H as [H|H]; [discriminate H|]). exact H. }
  rewrite (proj2 (@extract_details_spells_keywords title_with_variants H)).
  reflexivity.
Defined.

(* ================================================================== *)
(** * When the pipeline raises and when it does not *)
(* ================================================================== *)

Lemma clean_columns_all_text (is_decimal : char -> bool) (df : list raw_row) :
  forallb all_text df = true ->
  clean_columns is_decimal df = Ok (List.map (cleaned_row is_decimal) df).
Proof.
  intros E. pose proof (clean_columns_by_row is_decimal df) as H.
  rewrite forallb_forall in E.
  rewrite (@mapM_all_ok _ _ (clean_row is_decimal) (cleaned_row is_decimal)) in H.
  - destruct (clean_columns is_decimal df); simpl in H; [now subst | contradiction].
  - apply Forall_forall. intros r Hr. apply clean_row_text. now apply E.
Qed.

Lemma dropna_all_text (df : list raw_row) :
  forallb no_number df = true -> forallb all_text (dropna df) = true.
Proof.
  intros H. rewrite forallb_forall in H. apply forallb_forall.
  intros r Hr. unfold dropna in Hr. apply filter_In in Hr.
  destruct Hr as [Hin Hna]. specialize (H r Hin).
  destruct r as [[ti| |] [ad| |] [b| |] [ba| |] [t| |] [p| |] [pr| |]];
    try discriminate Hna; try discriminate H; reflexivity.
Qed.

(** X7. On a table whose cells are text or missing, none a number, the
    cleaning loop never raises: after [dropna] every cell is text, and
    the loop returns each remaining row with its fields cleaned. *)
Theorem cleaning_after_dropna (is_decimal : char -> bool) (data : list raw_row) :
  forallb no_number data = true ->
  forallb all_text (dropna data) = true
  /\ clean_columns is_decimal (dropna data)
     = Ok (List.map (cleaned_row is_decimal) (dropna data)).
Proof.
  intros H. pose proof (dropna_all_text data H) as Ht.
  split; [exact Ht | now apply clean_columns_all_text].
Qed.

Lemma cleaning_after_dropna_witness :
  forallb all_text (dropna scraped_table) = true
  /\ clean_columns is_ascii_digit (dropna scraped_table)
     = Ok (List.map (cleaned_row is_ascii_digit) (dropna scraped_table)).
Proof. apply cleaning_after_dropna. reflexivity. Defined.




Lemma parse_integer_raise (s : str) (e : exn) :
  parse_integer s = Raise e -> exists why, e = ValueError why.
Proof.
  unfold parse_integer. destruct s as [|c s]; [discriminate|].
  destruct (forallb is_ascii_digit (c :: s)).
  - destruct (digits_value (c :: s) <=? uint64_max)%Z; [discriminate|].
    intros [= <-]. eauto.
  - intros [= <-]. eauto.
Qed.

(** The conversion of a column raises nothing but [ValueError]. *)
Lemma to_numeric_raise (floatify : str -> Q) (col : list str) (e : exn) :
  to_numeric floatify col = Raise e -> exists why, e = ValueError why.
Proof.
  unfold to_numeric.
  destruct (mapM parse_integer col) as [ints|e'] eqn:E; cbn [bind].
  - destruct (existsb is_missing ints); [destruct (existsb is_uint ints)|];
      discriminate.
  - intros [= <-]. apply mapM_raise in E. destruct E as (s & _ & Hs).
    now apply parse_integer_raise in Hs.
Qed.

(** A column that holds an integer above [uint64_max] is not
    converted. *)
Lemma to_numeric_oversized (floatify : str -> Q) (col : list str) (s : str) :
  In s col -> forallb is_ascii_digit s = true ->
  (uint64_max < digits_value s)%Z ->
  exists why, to_numeric floatify col = Raise (ValueError why).
Proof.
  intros Hin Hd Hv.
  assert (Hs : parse_integer s = Raise (ValueError integer_out_of_range)).
  { unfold parse_integer. destruct s as [|c s]; [discriminate Hv|].
    rewrite Hd. destruct (Z.leb_spec (digits_value (c :: s)) uint64_max);
      [lia | reflexivity]. }
  destruct (mapM_some_raise _ _ _ Hin Hs) as [e He].
  assert (E : to_numeric floatify col = Raise e)
    by (unfold to_numeric; now rewrite He).
  destruct (to_numeric_raise _ _ E) as [why ->]. eauto.
Qed.

(** X25. A run of the digits [0-9] that writes a number above the
    largest unsigned 64-bit integer, in any numeric field of any row of
    the cleaned table, makes the conversion loop raise [ValueError]: the
    run ends there, whatever the other rows hold. *)
Theorem oversized_number_aborts (floatify : str -> Q) (df : list text_row)
        (r : text_row) (s : str) :
  In r df -> In s (numeric_fields r) ->
  forallb is_ascii_digit s = true -> (uint64_max < digits_value s)%Z ->
  exists why,
    convert_columns floatify df = Raise (ValueError why)
    /\ train_rows floatify df = Raise (ValueError why).
Proof.
  intros Hr Hs Hd Hv.
  assert (Hraise : exists why, convert_columns floatify df = Raise (ValueError why)).
  { assert (Hcol : forall column : text_row -> str,
               s = column r ->
               exists why, to_numeric floatify (List.map column df)
                           = Raise (ValueError why)).
    { intros column ->. apply (@to_numeric_oversized _ _ (column r)); auto.
      now apply in_map. }
    unfold convert_columns. cbv beta zeta. unfold text_row in *.
    destruct (to_numeric floatify (List.map (@bed _ _ _ _ _ _ _) df))
      as [b|e1] eqn:E1; cbn [bind];
      [|destruct (to_numeric_raise _ _ E1) as [why ->]; eauto].
    destruct (to_numeric floatify (List.map (@bath _ _ _ _ _ _ _) df))
      as [ba|e2] eqn:E2; cbn [bind];
      [|destruct (to_numeric_raise _ _ E2) as [why ->]; eauto].
    destruct (to_numeric floatify (List.map (@toilet _ _ _ _ _ _ _) df))
      as [t|e3] eqn:E3; cbn [bind];
      [|destruct (to_numeric_raise _ _ E3) as [why ->]; eauto].
    destruct (to_numeric floatify (List.map (@pkn_space _ _ _ _ _ _ _) df))
      as [p|e4] eqn:E4; cbn [bind];
      [|destruct (to_numeric_raise _ _ E4) as [why ->]; eauto].
    destruct (to_numeric floatify (List.map (@price _ _ _ _ _ _ _) df))
      as [pr|e5] eqn:E5; cbn [bind];
      [|destruct (to_numeric_raise _ _ E5) as [why ->]; eauto].
    exfalso.
    destruct Hs as [Hs|[Hs|[Hs|[Hs|[Hs|[]]]]]]; symmetry in Hs;
      destruct (Hcol _ Hs) as [why Hw]; congruence. }
  destruct Hraise as [why Hw]. exists why. split; [exact Hw|].
  unfold train_rows. now rewrite Hw.
Qed.

Lemma oversized_number_aborts_witness :
  exists why,
    convert_columns correctly_rounded [good_text_row; overpriced_text_row]
    = Raise (ValueError why)
    /\ train_rows correctly_rounded [good_text_row; overpriced_text_row]
       = Raise (ValueError why).
Proof.
  apply (@oversized_number_aborts correctly_rounded _ overpriced_text_row
           (price overpriced_text_row)).
  - right. now left.
  - simpl. auto 6.
  - reflexivity.
  - reflexivity.
Defined.

(* ================================================================== *)
(** * More on the row filters *)
(* ================================================================== *)

Lemma range_filters_single (df : list row) :
  range_filters df = filter passes_ranges df.
Proof.
  induction df as [|r df IH]; [reflexivity|].
  rewrite range_filters_cons, IH. reflexivity.
Qed.

Lemma filter_filter (A : Type) (f g : A -> bool) (l : list A) :
  filter f (filter g l) = filter (fun x => g x && f x) l.
Proof.
  induction l as [|a l IH]; simpl; [reflexivity|].
  destruct (g a); simpl; [destruct (f a)|]; now rewrite IH.
Qed.

(** X9. The three range filters amount to one filter by the conjunction
    of their tests, so their order does not matter: applied in the
    reverse order they select the same rows. *)
Theorem range_filters_order (df : list row) :
  range_filters df = filter passes_ranges df
  /\ filter_bed_toilet (filter_bath (filter_pkn_space df)) = range_filters df.
Proof.
  split; [apply range_filters_single|].
  rewrite range_filters_single.
  unfold filter_bed_toilet, filter_bath, filter_pkn_space, passes_ranges.
  rewrite !filter_filter. apply filter_ext. intros r.
  destruct (num_gt (bed r) 1 && num_lt (toilet r) 8),
           (num_gt (bath r) 1 && num_lt (bath r) 8),
           (num_gt (pkn_space r) 2 && num_lt (pkn_space r) 11); reflexivity.
Qed.

Lemma insert_sorted_In (x y : Q) (l : list Q) :
  In y (insert_sorted x l) <-> y = x \/ In y l.
Proof.
  induction l as [|a l IH]; simpl; [intuition congruence|].
  destruct (Qle_bool x a); simpl; [intuition congruence|].
  rewrite IH. intuition congruence.
Qed.

Lemma sort_values_In (y : Q) (l : list Q) : In y (sort_values l) <-> In y l.
Proof.
  induction l as [|x l IH]; simpl; [tauto|].
  rewrite insert_sorted_In, IH. intuition congruence.
Qed.

Lemma all_values_prices (a : list num) :
  Forall (fun x => x <> None) a ->
  exists vs, all_values a = Some vs /\ List.map Some vs = a.
Proof.
  induction 1 as [|x a Hx _ (vs & E & Hm)]; [now exists []|].
  destruct x as [q|]; [|congruence].
  exists (q :: vs). simpl. now rewrite E, Hm.
Qed.

(** The cut-off is a weighted mean of two of the values. *)
Lemma percentile_96_mean (a : list num) (vs : list Q) :
  all_values a = Some vs -> vs <> [] ->
  exists c previous next gamma,
    linear_interpolation a 96 = Some c
    /\ In previous vs /\ In next vs
    /\ 0 <= gamma /\ gamma <= 1
    /\ c == previous + gamma * (next - previous).
Proof.
  intros E Hne. unfold linear_interpolation. rewrite E.
  destruct (sort_values vs) as [|x s'] eqn:Es.
  { exfalso. destruct vs as [|v vs]; [congruence|].
    assert (H : In v (sort_values (v :: vs))) by (apply sort_values_In; now left).
    rewrite Es in H. contradiction. }
  set (s := x :: s') in *.
  set (pos := 96 / 100 * inject_Z (Z.of_nat (length s - 1))).
  assert (Hidx : forall i, (i < length s)%nat -> In (nth i s x) vs).
  { intros i Hi. apply sort_values_In. rewrite Es. now apply nth_In. }
  assert (Hlen : (0 < length s)%nat) by (unfold s; simpl; lia).
  assert (Hpos0 : 0 <= pos).
  { unfold pos. apply Qmult_le_0_compat; [discriminate|].
    change 0 with (inject_Z 0). rewrite <- Zle_Qle. lia. }
  assert (Hpos1 : pos <= inject_Z (Z.of_nat (length s - 1))).
  { unfold pos.
    assert (H : 0 <= inject_Z (Z.of_nat (length s - 1))).
    { change 0 with (inject_Z 0). rewrite <- Zle_Qle. lia. }
    revert H. generalize (inject_Z (Z.of_nat (length s - 1))). intros q Hq.
    rewrite <- (Qmult_1_l q) at 2.
    apply Qmult_le_compat_r; [discriminate | exact Hq]. }
  assert (Hlo0 : (0 <= Qfloor pos)%Z).
  { change 0%Z with (Qfloor (inject_Z 0)) at 1. now apply Qfloor_resp_le. }
  assert (Hlo1 : (Qfloor pos <= Z.of_nat (length s - 1))%Z).
  { rewrite <- (Qfloor_Z (Z.of_nat (length s - 1))). now apply Qfloor_resp_le. }
  exists (Qred (nth (Z.to_nat (Qfloor pos)) s x
                + (pos - inject_Z (Qfloor pos))
                  * (nth (Nat.min (Z.to_nat (Qfloor pos) + 1) (length s - 1)) s x
                     - nth (Z.to_nat (Qfloor pos)) s x))),
         (nth (Z.to_nat (Qfloor pos)) s x),
         (nth (Nat.min (Z.to_nat (Qfloor pos) + 1) (length s - 1)) s x),
         (pos - inject_Z (Qfloor pos)).
  split; [reflexivity|].
  split; [apply Hidx; lia|].
  split; [apply Hidx; lia|].
  pose proof (Qfloor_le pos) as Hf1. pose proof (Qlt_floor pos) as Hf2.
  rewrite inject_Z_plus in Hf2. change (inject_Z 1) with 1 in Hf2.
  split; [Lqa.lra|]. split; [Lqa.lra|]. apply Qred_correct.
Qed.

Lemma mean_ge (m previous next gamma : Q) :
  0 <= gamma -> gamma <= 1 -> m <= previous -> m <= next ->
  m <= previous + gamma * (next - previous).
Proof.
  intros Hg0 Hg1 Hp Hn.
  assert (H1 : 0 <= (1 - gamma) * (previous - m))
    by (apply Qmult_le_0_compat; Lqa.lra).
  assert (H2 : 0 <= gamma * (next - m))
    by (apply Qmult_le_0_compat; Lqa.lra).
  Lqa.lra.
Qed.

Lemma price_in_column (df : list row) (vs : list Q) (q : Q) :
  List.map Some vs = List.map (@price _ _ _ _ _ _ _) df -> In q vs ->
  exists r, In r df /\ price r = Some q.
Proof.
  intros E Hq. apply (in_map Some) in Hq. rewrite E in Hq.
  apply in_map_iff in Hq. destruct Hq as (r & Hr & Hin). eauto.
Qed.

Lemma price_cut_cheapest (df : list row) :
  Forall has_price df -> df <> [] ->
  exists kept,
    price_cut df = Ok kept
    /\ (forall r, In r df -> (forall r', In r' df -> price_le r r') ->
                  In r kept)
    /\ kept <> [].
Proof.
  intros Hp Hne.
  destruct (@all_values_prices (List.map (@price _ _ _ _ _ _ _) df))
    as (vs & E & Hm).
  { apply Forall_map. exact Hp. }
  destruct (@percentile_96_mean (List.map (@price _ _ _ _ _ _ _) df) vs)
    as (c & previous & next & gamma & Ec & Hpv & Hnx & Hg0 & Hg1 & Hc).
  { exact E. }
  { destruct df; [congruence|]. destruct vs; discriminate. }
  assert (Hcut : cut_off_of df = Ok (Some c)).
  { apply cut_off_of_ok. split; [exact Hne | now rewrite Ec]. }
  exists (price_at_most (Some c) df).
  split; [unfold price_cut; now rewrite Hcut|].
  destruct (@price_in_column df vs previous Hm Hpv) as (r1 & Hr1 & Ep1).
  destruct (@price_in_column df vs next Hm Hnx) as (r2 & Hr2 & Ep2).
  split.
  - intros r Hr Hmin.
    pose proof (Hmin r1 Hr1) as H1. pose proof (Hmin r2 Hr2) as H2.
    unfold price_le in H1, H2. rewrite Ep1 in H1. rewrite Ep2 in H2.
    unfold price_at_most. apply filter_In. split; [exact Hr|].
    destruct (price r) as [p|]; [|discriminate].
    simpl in *. apply Qle_bool_iff in H1, H2. apply Qle_bool_iff.
    rewrite Hc. now apply mean_ge.
  - assert (Hin : exists r, In r (price_at_most (Some c) df)).
    { destruct (Qlt_le_dec next previous) as [Hlt|Hle].
      - exists r2. unfold price_at_most. apply filter_In.
        split; [exact Hr2|]. rewrite Ep2. simpl. apply Qle_bool_iff.
        rewrite Hc. apply mean_ge; Lqa.lra.
      - exists r1. unfold price_at_most. apply filter_In.
        split; [exact Hr1|]. rewrite Ep1. simpl. apply Qle_bool_iff.
        rewrite Hc. apply mean_ge; Lqa.lra. }
    destruct Hin as [r Hr]. intros Hnil. rewrite Hnil in Hr. contradiction.
Qed.

(** X10. On a table that has a row and no missing price, the price cut
    does not raise and keeps every row whose price is the lowest, so it
    returns at least one row: the 96th percentile lies between two of the
    prices. *)
Theorem price_cut_keeps_cheapest (df : list row) :
  Forall has_price df -> df <> [] ->
  exists kept,
    price_cut df = Ok kept
    /\ (forall r, In r df -> (forall r', In r' df -> price_le r r') ->
                  In r kept)
    /\ kept <> [].
Proof. apply price_cut_cheapest. Qed.

Lemma price_cut_keeps_cheapest_witness :
  exists kept,
    price_cut three_listings = Ok kept
    /\ (forall r, In r three_listings ->
                  (forall r', In r' three_listings -> price_le r r') ->
                  In r kept)
    /\ kept <> [].
Proof.
  apply price_cut_keeps_cheapest; [|discriminate].
  repeat constructor; discriminate.
Defined.

(** X11. One row that is in range and has no price makes the cut-off
    NaN, and the row filters then return no row at all. *)
Theorem missing_price_empties (df : list row) (r : row) :
  In r df -> in_range r -> price r = None -> filter_rows df = Ok [].
Proof.
  intros Hin Hr Hp. unfold filter_rows. apply missing_price_drops_all.
  rewrite <- Hp. apply in_map. apply range_filters_In. auto.
Qed.

Lemma missing_price_empties_witness :
  filter_rows (three_listings ++ [priceless_listing]) = Ok [].
Proof.
  apply (@missing_price_empties _ priceless_listing).
  - apply in_or_app. right. now left.
  - exists 3, 3, 4, 3. repeat split; reflexivity.
  - reflexivity.
Defined.

(* ================================================================== *)
(** * More on the imputation *)
(* ================================================================== *)

Lemma insert_sorted_not_nil (x : Q) (l : list Q) : insert_sorted x l <> [].
Proof. destruct l as [|y l]; simpl; [|destruct (Qle_bool x y)]; discriminate. Qed.

Lemma median_present (a : list num) :
  (exists q, In (Some q) a) -> median a <> None.
Proof.
  intros [q Hq]. unfold median.
  assert (Hne : present_values a <> []).
  { induction a as [|x a IH]; [contradiction|].
    destruct Hq as [->|Hq]; [discriminate|].
    simpl. destruct x; [discriminate | now apply IH]. }
  destruct (present_values a) as [|v vs]; [congruence|].
  change (sort_values (v :: vs)) with (insert_sorted v (sort_values vs)).
  pose proof (insert_sorted_not_nil v (sort_values vs)) as H.
  destruct (insert_sorted v (sort_values vs)) as [|x s]; [congruence|].
  cbv beta iota zeta. destruct (Nat.even (length (x :: s))); discriminate.
Qed.

Lemma median_absent (a : list num) :
  Forall (fun x => x = None) a -> median a = None.
Proof.
  intros H. unfold median.
  assert (E : present_values a = []).
  { induction H as [|x a -> _ IH]; [reflexivity | exact IH]. }
  now rewrite E.
Qed.

(** X12. Median imputation on any table: a row that has a [pkn_space]
    is returned unchanged; when some row has one, no [pkn_space] is
    missing afterwards; when none has, the median is NaN and the table
    is returned unchanged. *)
Theorem impute_pkn_space_fills (df : list row) :
  length (impute_pkn_space df) = length df
  /\ (forall r, In r df -> has_pkn_space r -> In r (impute_pkn_space df))
  /\ ((exists r, In r df /\ has_pkn_space r) ->
      Forall has_pkn_space (impute_pkn_space df))
  /\ (Forall (fun r => ~ has_pkn_space r) df -> impute_pkn_space df = df).
Proof.
  unfold impute_pkn_space.
  set (m := median (List.map (@pkn_space _ _ _ _ _ _ _) df)).
  split; [apply length_map|]. split; [|split].
  - intros r Hr Hp. apply in_map_iff. exists r. split; [|exact Hr].
    destruct r as [ti ad b ba t p pr]. unfold has_pkn_space in Hp. simpl in *.
    destruct p; [reflexivity | congruence].
  - intros (r & Hr & Hp).
    assert (Hm : m <> None).
    { apply median_present. unfold has_pkn_space in Hp.
      destruct (pkn_space r) as [q|] eqn:E; [|congruence].
      exists q. rewrite <- E. now apply in_map. }
    apply Forall_map. apply Forall_forall. intros r' _.
    unfold has_pkn_space. simpl.
    destruct (pkn_space r'); simpl; [discriminate | exact Hm].
  - intros H.
    assert (Hm : m = None).
    { apply median_absent. apply Forall_map.
      eapply Forall_impl; [|exact H]. intros r Hr. unfold has_pkn_space in Hr.
      destruct (pkn_space r); [exfalso; apply Hr; discriminate | reflexivity]. }
    rewrite Hm. clear m Hm.
    induction H as [|r df Hr _ IH]; simpl; [reflexivity|].
    rewrite IH. f_equal.
    destruct r as [ti ad b ba t p pr]. unfold has_pkn_space in Hr. simpl in *.
    destruct p; reflexivity.
Qed.

(* ================================================================== *)
(** * More on the location truncation and the encoders *)
(* ================================================================== *)

Lemma firstn_whole (A : Type) (n : nat) (l : list A) :
  (length l <= n)%nat -> firstn n l = l.
Proof.
  revert n; induction l as [|a l IH]; intros n H; [now destruct n|].
  destruct n; simpl in *; [lia|]. rewrite IH; [reflexivity | lia].
Qed.

Lemma NoDup_firstn (A : Type) (n : nat) (l : list A) :
  NoDup l -> NoDup (firstn n l).
Proof.
  intros H. revert n. induction H as [|a l Ha _ IH]; intros n.
  - destruct n; constructor.
  - destruct n; simpl; constructor; [|apply IH].
    intros Hin. apply Ha. now apply (firstn_incl n l).
Qed.

Lemma addr_count_keys (df : list row) :
  Permutation (List.map fst (addr_count df)) (unique (List.map location df)).
Proof.
  unfold addr_count. rewrite <- crosstab_keys.
  apply Permutation_map, sort_desc_perm.
Qed.

Lemma locations_facts (df : list row) :
  (length (locations df) <= 15)%nat
  /\ NoDup (locations df)
  /\ incl (locations df) (List.map location df).
Proof.
  unfold locations. rewrite <- firstn_map. split; [|split].
  - rewrite length_firstn. lia.
  - apply NoDup_firstn.
    apply (Permutation_NoDup (Permutation_sym (addr_count_keys df))).
    apply unique_NoDup.
  - intros k Hk. apply firstn_incl in Hk.
    apply (Permutation_in _ (addr_count_keys df)) in Hk.
    exact (proj1 (unique_In _ _) Hk).
Qed.

Lemma filter_locations_few (df : list row) :
  (length (unique (List.map location df)) <= 15)%nat ->
  filter_locations df = df.
Proof.
  intros H. unfold filter_locations. apply filter_all.
  apply Forall_forall. intros r Hr. apply isin_In.
  unfold locations. rewrite <- firstn_map, firstn_whole.
  - apply (Permutation_in _ (Permutation_sym (addr_count_keys df))).
    apply (proj2 (unique_In _ _)). now apply in_map.
  - now rewrite (Permutation_length (addr_count_keys df)).
Qed.

Lemma filter_locations_distinct (df : list row) :
  (length (unique (List.map location (filter_locations df))) <= 15)%nat
  /\ incl (unique (List.map location (filter_locations df))) (locations df).
Proof.
  assert (Hincl : incl (unique (List.map location (filter_locations df)))
                       (locations df)).
  { intros k Hk. apply (proj1 (unique_In _ _)) in Hk. apply in_map_iff in Hk.
    destruct Hk as (r & <- & Hr). unfold filter_locations in Hr.
    apply filter_In in Hr. destruct Hr as [_ Hr]. now apply isin_In. }
  split; [|exact Hincl].
  destruct (locations_facts df) as (Hlen & _ & _).
  pose proof (NoDup_incl_length (unique_NoDup _) Hincl). lia.
Qed.

(** X13. When the table has at most 15 distinct locations, the
    location truncation removes nothing. *)
Theorem truncation_keeps_few_locations (df : list row) :
  (length (unique (List.map location df)) <= 15)%nat ->
  filter_locations df = df.
Proof. apply filter_locations_few. Qed.

Lemma truncation_keeps_few_locations_witness :
  filter_locations three_listings = three_listings.
Proof.
  apply truncation_keeps_few_locations. vm_compute. lia.
Defined.

(** X14. At most 15 locations are retained, all distinct and all
    present in the table, and truncating a truncated table changes
    nothing: unlike the price cut, the location truncation is
    idempotent. *)
Theorem truncation_idempotent (df : list row) :
  (length (locations df) <= 15)%nat
  /\ NoDup (locations df)
  /\ incl (locations df) (List.map location df)
  /\ filter_locations (filter_locations df) = filter_locations df.
Proof.
  destruct (locations_facts df) as (H1 & H2 & H3).
  repeat split; try assumption.
  apply filter_locations_few, filter_locations_distinct.
Qed.

Lemma index_of_nth (x : str) (l : list str) (i : nat) :
  index_of x l = Some i -> nth_error l i = Some x.
Proof.
  revert i. induction l as [|y l IH]; intros i; simpl; [discriminate|].
  destruct (str_eqb x y) eqn:E.
  - apply str_eqb_eq in E. subst. now intros [= <-].
  - destruct (index_of x l) as [j|]; simpl; [|discriminate].
    intros [= <-]. simpl. now apply IH.
Qed.

Lemma index_of_In (x : str) (l : list str) :
  In x l -> exists i, index_of x l = Some i.
Proof.
  intros H. destruct (index_of x l) as [i|] eqn:E; [eauto|].
  apply index_of_None in E. contradiction.
Qed.

Lemma transform_known (le : LabelEncoder) (y : list str) :
  incl y (classes_ le) ->
  exists codes, transform le y = Ok codes
                /\ Forall2 (fun x i => nth_error (classes_ le) i = Some x) y codes.
Proof.
  unfold transform. induction y as [|x y IH]; intros H.
  - exists []. split; [reflexivity | constructor].
  - destruct IH as (codes & E & F).
    { intros z Hz. apply H. now right. }
    destruct (@index_of_In x (classes_ le)) as [i Hi]; [apply H; now left|].
    exists (i :: codes). simpl. rewrite Hi. simpl. rewrite E. simpl.
    split; [reflexivity|]. constructor; [now apply index_of_nth | exact F].
Qed.

(** X15. [fit_transform] never raises: the classes are the distinct
    labels in ascending order, and every label is encoded by the
    position of its class, so decoding a code gives the label back and
    different labels get different codes. *)
Theorem fit_transform_round_trip (y : list str) :
  StronglySorted str_lt (classes_ (fit y))
  /\ (forall x, In x (classes_ (fit y)) <-> In x y)
  /\ exists codes,
       fit_transform y = Ok codes
       /\ Forall2 (fun x i => nth_error (classes_ (fit y)) i = Some x) y codes.
Proof.
  split; [apply unique_sorted|]. split; [intros x; apply unique_In|].
  apply transform_known. intros x Hx. simpl. exact (proj2 (unique_In _ _) Hx).
Qed.

(** X16. The location encoder is fitted on the selected rows, so it
    has at most 15 classes, each of them one of the retained
    locations. *)
Theorem location_encoder_classes (df selected : list row) :
  select_rows df = Ok selected ->
  exists filtered,
    filter_rows df = Ok filtered
    /\ let table := impute_pkn_space filtered in
       let le := fit (List.map location selected) in
       (length (classes_ le) <= 15)%nat
       /\ incl (classes_ le) (locations table).
Proof.
  intros H. apply select_rows_ok in H. destruct H as (filtered & Hf & _ & ->).
  exists filtered. split; [exact Hf|].
  cbv zeta. simpl.
  rewrite (@impute_without_missing _ (@filter_rows_pkn_space _ _ Hf)).
  apply filter_locations_distinct.
Qed.

Lemma location_encoder_classes_witness :
  exists filtered,
    filter_rows three_listings = Ok filtered
    /\ let table := impute_pkn_space filtered in
       let le := fit (List.map location (firstn 2 three_listings)) in
       (length (classes_ le) <= 15)%nat
       /\ incl (classes_ le) (locations table).
Proof.
  apply (@location_encoder_classes three_listings). vm_compute. reflexivity.
Defined.

Lemma lstrip_nul_length (s : str) : (length (lstrip_nul s) <= length s)%nat.
Proof.
  induction s as [|c s IH]; simpl; [lia|].
  destruct (char_eqb c NUL); simpl; lia.
Qed.

(** An element read from the array is not longer than the string that
    was stored. *)
Lemma element_length (s : str) : (length (element s) <= length s)%nat.
Proof.
  unfold element. rewrite length_rev.
  pose proof (lstrip_nul_length (rev s)) as H. now rewrite length_rev in H.
Qed.

Lemma itemsize_head (s : str) (l : list str) :
  (length s <= itemsize (s :: l))%nat.
Proof. unfold itemsize. simpl. apply Nat.le_max_l. Qed.

(** A code below 100 is written with at most two digits. *)
Lemma str_of_nat_two_digits (i : nat) :
  (i < 100)%nat -> (length (str_of_nat i) <= 2)%nat.
Proof.
  intros H.
  assert (E : forallb (fun i => (length (str_of_nat i) <=? 2)%nat) (seq 0 100)
              = true) by (vm_compute; reflexivity).
  rewrite forallb_forall in E. apply Nat.leb_le. apply E. apply in_seq. lia.
Qed.

(** X17. For a location that, as the string array holds it, is one of
    at most 100 classes of the encoder and has at least two characters,
    [predict] does not raise the unseen-label error and the code of the
    location reaches the regressor in full: the array is wide enough for
    it.  The outcome is that of the regressor on the position of the
    class and the other fields as the array holds them, converted by
    [act_price]. *)
Theorem predict_seen_location (est : estimator) (f : form) :
  In (element (form_location f)) (classes_ (le_location est)) ->
  (length (classes_ (le_location est)) <= 100)%nat ->
  (2 <= length (element (form_location f)))%nat ->
  exists i,
    nth_error (classes_ (le_location est)) i = Some (element (form_location f))
    /\ predict est f
       = (price <- reg est
            (str_of_nat i
             :: List.map element [form_bed f; form_bath f; form_toilet f;
                                  form_pkn_space f]) ;;
          Ok (act_price price)).
Proof.
  intros H H100 H2. destruct (index_of_In _ _ H) as [i Hi].
  pose proof (index_of_nth _ _ Hi) as Hn.
  exists i. split; [exact Hn|].
  unfold predict, transform. cbv zeta. cbn [List.map firstn mapM].
  rewrite Hi. cbn [bind List.map tl app].
  rewrite firstn_all2; [reflexivity|].
  assert (Hlt : (i < 100)%nat).
  { apply Nat.lt_le_trans with (length (classes_ (le_location est)));
      [|exact H100].
    apply nth_error_Some. rewrite Hn. discriminate. }
  pose proof (str_of_nat_two_digits Hlt) as Hd.
  pose proof (element_length (form_location f)) as He.
  pose proof (itemsize_head (form_location f)
                [form_bed f; form_bath f; form_toilet f; form_pkn_space f]).
  lia.
Qed.

Lemma predict_seen_location_witness :
  exists i,
    nth_error (classes_ (le_location sample_estimator)) i
    = Some (element (form_location lekki_nul_form))
    /\ predict sample_estimator lekki_nul_form
       = (price <- reg sample_estimator
            (str_of_nat i
             :: List.map element [form_bed lekki_nul_form;
                                  form_bath lekki_nul_form;
                                  form_toilet lekki_nul_form;
                                  form_pkn_space lekki_nul_form]) ;;
          Ok (act_price price)).
Proof.
  apply predict_seen_location.
  - vm_compute. right. now left.
  - vm_compute. repeat constructor.
  - vm_compute. repeat constructor.
Defined.

(* ================================================================== *)
(** * More on the price transform and its conversion *)
(* ================================================================== *)

Lemma round0_nearest (x : R) :
  exists z : Z, round0 x = IZR z
                /\ (Rabs (IZR z - x) <= 1 / 2)%R
                /\ (frac_part x = (1 / 2)%R -> Z.even z = true).
Proof.
  unfold round0.
  pose proof (base_fp x) as [Hd0 Hd1].
  pose proof (Rplus_Int_part_frac_part x) as Hx.
  set (f := Int_part x) in *. set (d := frac_part x) in *.
  destruct (Rlt_dec d (1 / 2)) as [H|H].
  - exists f. split; [reflexivity|]. split; [|lra].
    rewrite Rabs_left1; lra.
  - destruct (Rlt_dec (1 / 2) d) as [H'|H'].
    + exists (f + 1)%Z. split; [reflexivity|]. split; [|lra].
      rewrite plus_IZR. rewrite Rabs_right; lra.
    + destruct (Z.even f) eqn:E.
      * exists f. split; [reflexivity|]. split; [|auto].
        rewrite Rabs_left1; lra.
      * exists (f + 1)%Z. split; [reflexivity|]. split.
        -- rewrite plus_IZR. rewrite Rabs_right; lra.
        -- intros _. rewrite Z.even_add, E. reflexivity.
Qed.

(** X18. Whatever log-price the regressor answers, the price [predict]
    displays is a whole number and at least 1. *)
Theorem act_price_at_least_one (price : R) :
  exists z : Z, act_price price = IZR z /\ (1 <= z)%Z.
Proof.
  unfold act_price.
  destruct (round0_nearest (exp price + 1)) as (z & Ez & Hz & _).
  exists z. split; [exact Ez|].
  pose proof (exp_pos price) as Hexp.
  assert (H : (IZR 0 < IZR z)%R).
  { unfold Rabs in Hz.
    destruct (Rcase_abs (IZR z - (exp price + 1))); lra. }
  apply lt_IZR in H. lia.
Qed.

(** X19. The training transform [log_price] is undone by [exp x - 1]
    on every price above -1; it is 0 at price 0 and strictly increasing,
    so it keeps the order of prices. *)
Theorem log_price_inverse (p q : R) :
  (-1 < p)%R -> (p < q)%R ->
  (exp (log_price p) - 1)%R = p
  /\ (log_price p < log_price q)%R
  /\ log_price 0 = 0%R.
Proof.
  intros Hp Hq. unfold log_price. split; [|split].
  - rewrite exp_ln; lra.
  - apply ln_increasing; lra.
  - replace (0 + 1)%R with 1%R by lra. apply ln_1.
Qed.

Lemma log_price_inverse_witness :
  (exp (log_price 1) - 1)%R = 1%R
  /\ (log_price 1 < log_price 2)%R
  /\ log_price 0 = 0%R.
Proof. apply log_price_inverse; lra. Defined.

(* ================================================================== *)
(** * Loading the tables *)
(* ================================================================== *)

Lemma load_data_from (files : list (list raw_row)) (acc : list raw_row) :
  fold_left (fun all_df df => all_df ++ df) files acc = acc ++ concat files.
Proof.
  revert acc. induction files as [|df files IH]; intros acc; simpl.
  - now rewrite app_nil_r.
  - rewrite IH. now rewrite app_assoc.
Qed.

Lemma dropna_app (a b : list raw_row) :
  dropna (a ++ b) = dropna a ++ dropna b.
Proof. apply filter_app. Qed.

(** X20. [load_data] returns the rows of all files, file after file in
    listing order, and dropping the incomplete rows of the loaded table
    is dropping them file by file. *)
Theorem load_data_rows (files : list (list raw_row)) :
  load_data files = concat files
  /\ dropna (load_data files) = concat (List.map dropna files).
Proof.
  assert (E : load_data files = concat files).
  { unfold load_data. now rewrite load_data_from. }
  split; [exact E|]. rewrite E.
  induction files as [|df files IH]; [reflexivity|].
  simpl. rewrite dropna_app. f_equal. apply IH.
  unfold load_data. now rewrite load_data_from.
Qed.

(* ================================================================== *)
(** * What the selection does to the table *)
(* ================================================================== *)

(** X21. The selection only removes rows: it raises [IndexError] when
    no row passes the range filters, and whatever it returns is the
    converted table filtered by one test, so every returned row is a row
    of the input with all its values, and the rows keep their order. *)
Theorem select_rows_only_removes (df : list row) :
  (range_filters df = [] -> select_rows df = Raise IndexError)
  /\ (forall selected, select_rows df = Ok selected ->
                       exists keep : row -> bool, selected = filter keep df).
Proof.
  split.
  - intros H. apply select_rows_raise. left. auto.
  - intros selected E.
    apply select_rows_ok in E. destruct E as (filtered & Hf & _ & ->).
    apply filter_rows_ok in Hf. destruct Hf as (cut & _ & ->).
    unfold filter_locations, price_at_most.
    rewrite range_filters_single, !filter_filter.
    eexists. reflexivity.
Qed.

Lemma count_indicator (keys : list str) (x : str) :
  NoDup keys -> In x keys ->
  list_sum (List.map (fun k => if str_eq_dec x k then 1 else 0)%nat keys) = 1%nat.
Proof.
  induction 1 as [|k keys Hk Hnd IH]; intros Hin; [contradiction|].
  simpl. destruct (str_eq_dec x k) as [->|Hne].
  - assert (E : list_sum (List.map
                   (fun k0 => if str_eq_dec k k0 then 1 else 0)%nat keys) = 0%nat).
    { clear IH Hnd Hin. induction keys as [|a keys IHk]; [reflexivity|].
      simpl. destruct (str_eq_dec k a) as [->|_].
      - exfalso. apply Hk. now left.
      - apply IHk. intros H. apply Hk. now right. }
    now rewrite E.
  - destruct Hin as [->|Hin]; [congruence|]. now apply IH.
Qed.

Lemma counts_cons (keys : list str) (x : str) (locs : list str) :
  list_sum (List.map (fun k => count k (x :: locs)) keys)
  = (list_sum (List.map (fun k => if str_eq_dec x k then 1 else 0)%nat keys)
     + list_sum (List.map (fun k => count k locs) keys))%nat.
Proof.
  induction keys as [|k keys IH]; [reflexivity|].
  unfold list_sum in *. cbn [List.map fold_right]. rewrite IH.
  unfold count. cbn [count_occ]. destruct (str_eq_dec x k); lia.
Qed.

Lemma counts_total (keys locs : list str) :
  NoDup keys -> incl locs keys ->
  list_sum (List.map (fun k => count k locs) keys) = length locs.
Proof.
  intros Hnd. induction locs as [|x locs IH]; intros Hincl.
  - clear. induction keys as [|k keys IHk]; [reflexivity|].
    unfold list_sum in *. cbn [List.map fold_right]. now rewrite IHk.
  - assert (Hx : In x keys) by (apply Hincl; now left).
    assert (Hrest : incl locs keys) by (intros z Hz; apply Hincl; now right).
    rewrite counts_cons, (IH Hrest), (@count_indicator keys x Hnd Hx).
    reflexivity.
Qed.

(** X22. The counts of the frequency table add up to the number of
    rows: every row is counted once, at its location. *)
Theorem crosstab_total (df : list row) :
  list_sum (List.map snd (crosstab (List.map location df))) = length df.
Proof.
  unfold crosstab. rewrite map_map. simpl.
  rewrite counts_total.
  - apply length_map.
  - apply unique_NoDup.
  - intros k Hk. exact (proj2 (unique_In _ _) Hk).
Qed.

Lemma first_location_kept (df : list row) :
  df <> [] ->
  exists k c,
    hd_error (addr_count df) = Some (k, c)
    /\ c = count k (List.map location df)
    /\ (forall k', (count k' (List.map location df) <= c)%nat)
    /\ In k (locations df)
    /\ filter_locations df <> [].
Proof.
  intros Hne. set (locs := List.map location df).
  assert (Hperm : Permutation (addr_count df) (crosstab locs))
    by apply sort_desc_perm.
  assert (Hsorted : StronglySorted desc_by_count (addr_count df))
    by apply sort_desc_sorted.
  assert (Hex : exists r, In r df) by (destruct df as [|r df]; [congruence | exists r; now left]).
  destruct Hex as [r0 Hr0].
  assert (Hin0 : In (location r0, count (location r0) locs) (addr_count df)).
  { apply (Permutation_in _ (Permutation_sym Hperm)).
    apply crosstab_In. split; [now apply in_map | reflexivity]. }
  unfold filter_locations, locations.
  revert Hperm Hsorted Hin0.
  destruct (addr_count df) as [|[k c] rest]; intros Hperm Hsorted Hin0;
    [contradiction|].
  exists k, c.
  assert (Hk : In (k, c) (crosstab locs)).
  { apply (Permutation_in _ Hperm). now left. }
  apply crosstab_In in Hk. destruct Hk as [Hkin Hc].
  split; [reflexivity|]. split; [exact Hc|]. split; [|split].
  - intros k'. destruct (in_dec str_eq_dec k' locs) as [Hin|Hout].
    + assert (H : In (k', count k' locs) ((k, c) :: rest)).
      { apply (Permutation_in _ (Permutation_sym Hperm)).
        apply crosstab_In. auto. }
      destruct H as [[= <- <-]|H]; [lia|].
      inversion Hsorted as [|? ? _ Hall]; subst.
      rewrite Forall_forall in Hall. exact (Hall _ H).
    + unfold count. rewrite (proj1 (count_occ_not_In str_eq_dec locs k') Hout). lia.
  - simpl. now left.
  - apply in_map_iff in Hkin. destruct Hkin as (r & Hr & Hin).
    match goal with
    | |- ?l <> [] =>
        assert (H : In r l);
        [|intros Hnil; rewrite Hnil in H; contradiction]
    end.
    apply filter_In. split; [exact Hin|]. apply (proj2 (isin_In _ _)).
    rewrite Hr. simpl. now left.
Qed.

(** X23. On a table that has a row, the first line of [addr_count] is
    a location that no other location outnumbers; it is retained, and so
    the truncation returns at least one row. *)
Theorem most_frequent_location_kept (df : list row) :
  df <> [] ->
  exists k c,
    hd_error (addr_count df) = Some (k, c)
    /\ c = count k (List.map location df)
    /\ (forall k', (count k' (List.map location df) <= c)%nat)
    /\ In k (locations df)
    /\ filter_locations df <> [].
Proof. apply first_location_kept. Qed.

Lemma most_frequent_location_kept_witness :
  filter_locations three_listings <> [].
Proof.
  destruct (@most_frequent_location_kept three_listings) as (k & c & H);
    [discriminate|].
  apply H.
Defined.

(** X24. When some row of the converted table is in range and every
    row in range has a price, the selection does not raise and returns
    at least one row. *)
Theorem select_rows_not_empty (df : list row) :
  (exists r, In r df /\ in_range r) ->
  (forall r, In r df -> in_range r -> has_price r) ->
  exists selected, select_rows df = Ok selected /\ selected <> [].
Proof.
  intros (r & Hr & Hin) Hprice.
  assert (H1 : range_filters df <> []).
  { intros E. assert (H : In r (range_filters df)) by (apply range_filters_In; auto).
    rewrite E in H. contradiction. }
  assert (H2 : Forall has_price (range_filters df)).
  { apply Forall_forall. intros r' Hr'. apply range_filters_In in Hr'.
    now apply Hprice. }
  destruct (price_cut_cheapest H2 H1) as (kept & Hk & _ & Hne).
  exists (filter_locations kept). split.
  - apply select_rows_ok. exists kept. auto.
  - destruct (first_location_kept Hne) as (k & c & _ & _ & _ & _ & H). exact H.
Qed.

Lemma select_rows_not_empty_witness :
  exists selected, select_rows three_listings = Ok selected /\ selected <> [].
Proof.
  apply select_rows_not_empty.
  - exists (listing (py "Lekki") 3 3 3 3 1). split; [now left|].
    exists 3, 3, 3, 3. repeat split; reflexivity.
  - intros r [<-|[<-|[<-|[]]]] _; unfold has_price; discriminate.
Defined.
